(** * brew-guide: the text / JSON import and export layer of [src/lib/jsonUtils.ts]

    A shallow embedding of the formatter, the text parsers, the JSON codec and
    the dispatcher, together with the properties the specification states
    about them.

    JavaScript strings are sequences of UTF-16 code units, and every
    operation used by the source ([match], [split], [includes], [trim],
    [startsWith]) works on code units, so a string is a list of code units
    here.  String literals of the source are written as UTF-8 literals and
    converted once by [utf16]. *)

From Stdlib Require Import String Ascii.
From Stdlib Require Import NArith ZArith QArith Qround Bool Arith Lia DecimalZ List.
Import ListNotations.

Set Implicit Arguments.
Close Scope Q_scope.
Local Open Scope nat_scope.
Local Open Scope list_scope.

(** ** Strings *)

Module Js.

Definition char := N.
Definition jsstring := list char.

Fixpoint bytes_of (s : string) : list N :=
  match s with
  | EmptyString => []
  | String a s' => N_of_ascii a :: bytes_of s'
  end.

(** UTF-8 decoding of a literal into code points. *)
Fixpoint utf8_decode (bs : list N) : list N :=
  match bs with
  | [] => []
  | b0 :: r =>
      if (b0 <? 128)%N then b0 :: utf8_decode r
      else if (b0 <? 224)%N then
        match r with
        | b1 :: r' => ((b0 - 192) * 64 + (b1 - 128))%N :: utf8_decode r'
        | _ => []
        end
      else if (b0 <? 240)%N then
        match r with
        | b1 :: b2 :: r' =>
            ((b0 - 224) * 4096 + (b1 - 128) * 64 + (b2 - 128))%N :: utf8_decode r'
        | _ => []
        end
      else
        match r with
        | b1 :: b2 :: b3 :: r' =>
            ((b0 - 240) * 262144 + (b1 - 128) * 4096 + (b2 - 128) * 64 + (b3 - 128))%N
              :: utf8_decode r'
        | _ => []
        end
  end.

(** Code points to UTF-16 code units (surrogate pairs above the BMP). *)
Definition utf16_units (cp : N) : list char :=
  if (cp <? 65536)%N then [cp]
  else [(55296 + (cp - 65536) / 1024)%N; (56320 + (cp - 65536) mod 1024)%N].

Definition utf16 (s : string) : jsstring :=
  flat_map utf16_units (utf8_decode (bytes_of s)).

Definition LF : jsstring := [10%N].

Fixpoint eqb (a b : jsstring) : bool :=
  match a, b with
  | [], [] => true
  | x :: a', y :: b' => N.eqb x y && eqb a' b'
  | _, _ => false
  end.

(** [s.startsWith(p)] *)
Fixpoint startsWith (p s : jsstring) : bool :=
  match p with
  | [] => true
  | x :: p' =>
      match s with
      | y :: s' => N.eqb x y && startsWith p' s'
      | [] => false
      end
  end.

(** [s.indexOf(p)], [None] standing for -1. *)
Fixpoint indexOf (p s : jsstring) : option nat :=
  if startsWith p s then Some 0
  else match s with
       | [] => None
       | _ :: s' => option_map S (indexOf p s')
       end.

(** [s.includes(p)] *)
Definition includes (p s : jsstring) : bool :=
  match indexOf p s with Some _ => true | None => false end.

(** [s.split(sep)] for a separator that is not empty: cut at the leftmost
    occurrence and go on behind it.  Every cut removes at least one code
    unit, so [length s] rounds are enough (see [split_fuel_enough]). *)
Fixpoint split_fuel (fuel : nat) (sep s : jsstring) : list jsstring :=
  match fuel with
  | O => [s]
  | S f =>
      match indexOf sep s with
      | None => [s]
      | Some i => firstn i s :: split_fuel f sep (skipn (i + length sep) s)
      end
  end.

Definition split (sep s : jsstring) : list jsstring :=
  split_fuel (length s) sep s.

(** White space and line terminators of ECMAScript: the class [\s] of a
    regular expression and the code units removed by [trim]. *)
Definition is_space (c : char) : bool :=
  ((9 <=? c) && (c <=? 13) || (c =? 32) || (c =? 160) || (c =? 5760)
   || (8192 <=? c) && (c <=? 8202) || (c =? 8232) || (c =? 8233)
   || (c =? 8239) || (c =? 8287) || (c =? 12288) || (c =? 65279))%N.

(** [\d] *)
Definition is_digit (c : char) : bool := ((48 <=? c) && (c <=? 57))%N.

(** [.] without the [s] flag: anything but a line terminator. *)
Definition is_dot (c : char) : bool :=
  negb ((c =? 10) || (c =? 13) || (c =? 8232) || (c =? 8233))%N.

(** [[^]] *)
Definition is_any (c : char) : bool := true.

(** [[a-zA-Z0-9-]] *)
Definition is_id_char (c : char) : bool :=
  ((97 <=? c) && (c <=? 122) || (65 <=? c) && (c <=? 90)
   || (48 <=? c) && (c <=? 57) || (c =? 45))%N.

Fixpoint dropWhile (p : char -> bool) (s : jsstring) : jsstring :=
  match s with
  | [] => []
  | c :: s' => if p c then dropWhile p s' else s
  end.

(** [s.trim()] *)
Definition trim (s : jsstring) : jsstring :=
  rev (dropWhile is_space (rev (dropWhile is_space s))).

(** [arr.join(sep)] *)
Fixpoint join (sep : jsstring) (l : list jsstring) : jsstring :=
  match l with
  | [] => []
  | [x] => x
  | x :: l' => x ++ sep ++ join sep l'
  end.

(** Decimal rendering of an integer, as [`${n}`] gives it. *)
Fixpoint digits (u : Decimal.uint) : jsstring :=
  match u with
  | Decimal.Nil => []
  | Decimal.D0 u' => 48%N :: digits u'
  | Decimal.D1 u' => 49%N :: digits u'
  | Decimal.D2 u' => 50%N :: digits u'
  | Decimal.D3 u' => 51%N :: digits u'
  | Decimal.D4 u' => 52%N :: digits u'
  | Decimal.D5 u' => 53%N :: digits u'
  | Decimal.D6 u' => 54%N :: digits u'
  | Decimal.D7 u' => 55%N :: digits u'
  | Decimal.D8 u' => 56%N :: digits u'
  | Decimal.D9 u' => 57%N :: digits u'
  end.

Definition dec (z : Z) : jsstring :=
  match Z.to_int z with
  | Decimal.Pos u => digits u
  | Decimal.Neg u => 45%N :: digits u
  end.

(** [parseInt] on a capture of [\d+]: the value of the leading digits. *)
Fixpoint parseInt_acc (acc : Z) (s : jsstring) : Z :=
  match s with
  | c :: s' => if is_digit c then parseInt_acc (10 * acc + (Z.of_N c - 48)) s' else acc
  | [] => acc
  end.

Definition parseInt (s : jsstring) : Z := parseInt_acc 0 s.

(** Truthiness of a string: not empty. *)
Definition nonempty (s : jsstring) : bool :=
  match s with [] => false | _ => true end.

End Js.

Import Js.

(** ** Regular expressions

    The patterns of the source use literals, character classes, [*], [*?]
    and [+] on a single class, capture groups, one alternative and [$].
    [rmatch] is the backtracking matcher of ECMAScript on that fragment,
    written with a continuation: a greedy star tries the longer match
    first, a lazy star the shorter one, an alternative its left branch
    first.  No pattern of the source carries the [m], [s], [i] or [u]
    flag, so [$] is the end of the input and letters match exactly. *)

Module Regex.

Inductive regex : Type :=
| Lit (l : jsstring)
| Cls (p : char -> bool)
| Star (p : char -> bool)
| StarLazy (p : char -> bool)
| Seq (a b : regex)
| Alt (a b : regex)
| Grp (i : nat) (a : regex)
| Eoi.

Definition captures := list (nat * jsstring).

Fixpoint strip (l s : jsstring) : option jsstring :=
  match l with
  | [] => Some s
  | x :: l' =>
      match s with
      | y :: s' => if N.eqb x y then strip l' s' else None
      | [] => None
      end
  end.

Section Matcher.
Variable R : Type.

Fixpoint star_greedy (p : char -> bool) (k : jsstring -> option R) (s : jsstring)
  : option R :=
  match s with
  | c :: s' =>
      if p c then
        match star_greedy p k s' with
        | Some r => Some r
        | None => k s
        end
      else k s
  | [] => k s
  end.

Fixpoint star_lazy (p : char -> bool) (k : jsstring -> option R) (s : jsstring)
  : option R :=
  match k s with
  | Some r => Some r
  | None =>
      match s with
      | c :: s' => if p c then star_lazy p k s' else None
      | [] => None
      end
  end.

Fixpoint rmatch (r : regex) (k : jsstring -> captures -> option R)
         (s : jsstring) (cs : captures) : option R :=
  match r with
  | Lit l => match strip l s with Some s' => k s' cs | None => None end
  | Cls p =>
      match s with
      | c :: s' => if p c then k s' cs else None
      | [] => None
      end
  | Star p => star_greedy p (fun s' => k s' cs) s
  | StarLazy p => star_lazy p (fun s' => k s' cs) s
  | Seq a b => rmatch a (fun s' cs' => rmatch b k s' cs') s cs
  | Alt a b =>
      match rmatch a k s cs with
      | Some x => Some x
      | None => rmatch b k s cs
      end
  | Grp i a =>
      rmatch a (fun s' cs' => k s' ((i, firstn (length s - length s') s) :: cs')) s cs
  | Eoi => match s with [] => k s cs | _ :: _ => None end
  end.
End Matcher.

(** The result of a successful match: the matched text, the captures and
    the input behind the match. *)
Record result := mkResult { whole : jsstring; caps : captures; after : jsstring }.

(** [m[i]] for a capture group; a group that took no part is [undefined],
    which every use in the source treats like the empty string. *)
Fixpoint group (i : nat) (cs : captures) : jsstring :=
  match cs with
  | [] => []
  | (j, g) :: cs' => if Nat.eqb i j then g else group i cs'
  end.

Definition match_here (r : regex) (s : jsstring) : option result :=
  rmatch r (fun s' cs => Some (mkResult (firstn (length s - length s') s) cs s')) s [].

(** [s.match(r)] without the [g] flag: the leftmost match. *)
Fixpoint exec (r : regex) (s : jsstring) : option result :=
  match match_here r s with
  | Some m => Some m
  | None =>
      match s with
      | [] => None
      | _ :: s' => exec r s'
      end
  end.

(** [s.match(r)] with the [g] flag: the matched texts from left to right,
    the empty list standing for [null]. *)
Fixpoint match_all_fuel (fuel : nat) (r : regex) (s : jsstring) : list jsstring :=
  match fuel with
  | O => []
  | S f =>
      match exec r s with
      | None => []
      | Some m =>
          whole m ::
          match whole m, after m with
          | [], [] => []
          | [], _ :: s' => match_all_fuel f r s'
          | _ :: _, s' => match_all_fuel f r s'
          end
      end
  end.

Definition match_all (r : regex) (s : jsstring) : list jsstring :=
  match_all_fuel (S (length s)) r s.

Definition Plus (p : char -> bool) : regex := Seq (Cls p) (Star p).

(** [(?:\n|$)] *)
Definition Eol : regex := Alt (Lit LF) Eoi.

End Regex.

Import Regex.
Infix "+>" := Seq (at level 60, right associativity).

(** [/<label>\s*(.*?)(?:\n|$)/], the shape of every labelled line. *)
Definition re_line (label : jsstring) : regex :=
  Lit label +> Star is_space +> Grp 1 (StarLazy is_dot) +> Eol.

(** [/<label>\s*(\d+)<unit>/] *)
Definition re_amount (label unit : jsstring) : regex :=
  Lit label +> Star is_space +> Grp 1 (Plus is_digit) +> Lit unit.

(** [m && m[1]]: the first capture of the leftmost match, when there is a
    match and the capture is not empty. *)
Definition capture1 (r : regex) (text : jsstring) : option jsstring :=
  match exec r text with
  | Some m => if nonempty (group 1 (caps m)) then Some (group 1 (caps m)) else None
  | None => None
  end.

(** ** Data model

    [Method] and [Stage] as the formatter reads them and as the text parser
    builds them.  Times are whole seconds, which a double holds exactly and
    a template literal prints in plain decimals as long as they stay below
    2^53; a number taken from a capture of [\d+] is kept exact, where the
    source holds the nearest double (the two agree below 2^53). *)

Module Stage.
Record t := mk {
  time : Z;
  pourTime : Z;
  label : jsstring;
  water : jsstring;
  detail : jsstring;
  pourType : jsstring;
  valveStatus : option jsstring
}.
End Stage.

Module Params.
Record t := mk {
  coffee : jsstring;
  water : jsstring;
  ratio : jsstring;
  grindSize : jsstring;
  temp : jsstring;
  videoUrl : jsstring;
  stages : list Stage.t
}.
End Params.

Module Method.
Record t := mk {
  id : jsstring;
  name : jsstring;
  params : Params.t
}.
End Method.

(** [a || b] on strings *)
Definition or_else (a b : jsstring) : jsstring := if nonempty a then a else b.

Definition unset : jsstring := Eval vm_compute in utf16 "未设置".
Definition unknown : jsstring := Eval vm_compute in utf16 "未知".
Definition share_footer : jsstring := utf16 "--- 复制以上内容可分享和导入 ---".
Definition footer_cut : jsstring := Eval vm_compute in LF ++ utf16 "---".

Definition tag_bean : jsstring := utf16 "@DATA_TYPE:COFFEE_BEAN@".
Definition tag_method : jsstring := utf16 "@DATA_TYPE:BREWING_METHOD@".
Definition tag_note : jsstring := utf16 "@DATA_TYPE:BREWING_NOTE@".

Definition head_bean : jsstring := Eval vm_compute in utf16 "【咖啡豆】".
Definition head_method : jsstring := Eval vm_compute in utf16 "【冲煮方案】".
Definition head_note : jsstring := Eval vm_compute in utf16 "【冲煮记录】".

Definition lbl_coffee : jsstring := Eval vm_compute in utf16 "咖啡粉量:".
Definition lbl_water : jsstring := Eval vm_compute in utf16 "水量:".
Definition lbl_ratio : jsstring := Eval vm_compute in utf16 "比例:".
Definition lbl_grind : jsstring := Eval vm_compute in utf16 "研磨度:".
Definition lbl_temp : jsstring := Eval vm_compute in utf16 "水温:".
Definition lbl_steps : jsstring := Eval vm_compute in utf16 "冲煮步骤:".
Definition tag_method_id : jsstring := Eval vm_compute in utf16 "@METHOD_ID:".
Definition SP : jsstring := [32%N].

(** ** Formatter of a brewing method *)

Definition getPourTypeText (pourType : jsstring) : jsstring :=
  if eqb pourType (utf16 "center") then utf16 "中心注水"
  else if eqb pourType (utf16 "circle") then utf16 "绕圈注水"
  else if eqb pourType (utf16 "ice") then utf16 "冰块注水"
  else if eqb pourType (utf16 "other") then utf16 "其他方式"
  else utf16 "绕圈注水".

(** One round of the [forEach] of [methodToReadableText]. *)
Definition stageText (index : nat) (stage : Stage.t) : jsstring :=
  let timeText :=
    dec (Stage.time stage / 60) ++ utf16 "分" ++ dec (Z.rem (Stage.time stage) 60)
      ++ utf16 "秒" in
  let pourTimeText :=
    if (Stage.pourTime stage =? 0)%Z then []
    else utf16 " (注水" ++ dec (Stage.pourTime stage) ++ utf16 "秒)" in
  let pourTypeText :=
    if nonempty (Stage.pourType stage)
    then utf16 " [" ++ getPourTypeText (Stage.pourType stage) ++ utf16 "]"
    else [] in
  dec (Z.of_nat (index + 1)) ++ utf16 ". [" ++ timeText ++ utf16 "]" ++ pourTimeText
    ++ pourTypeText ++ SP ++ Stage.label stage ++ utf16 " - " ++ Stage.water stage ++ LF
    ++ (if nonempty (Stage.detail stage) then utf16 "   " ++ Stage.detail stage ++ LF else [])
    ++ LF.

Fixpoint stagesText (index : nat) (stages : list Stage.t) : jsstring :=
  match stages with
  | [] => []
  | stage :: rest => stageText index stage ++ stagesText (S index) rest
  end.

Definition paramLines (params : Params.t) : jsstring :=
  lbl_coffee ++ SP ++ or_else (Params.coffee params) unset ++ LF
  ++ lbl_water ++ SP ++ or_else (Params.water params) unset ++ LF
  ++ lbl_ratio ++ SP ++ or_else (Params.ratio params) unset ++ LF
  ++ lbl_grind ++ SP ++ or_else (Params.grindSize params) unset ++ LF
  ++ lbl_temp ++ SP ++ or_else (Params.temp params) unset ++ LF.

Definition methodToReadableText (method : Method.t) : jsstring :=
  let params := Method.params method in
  head_method ++ Method.name method ++ LF ++ LF
  ++ paramLines params
  ++ match Params.stages params with
     | [] => []
     | _ :: _ => LF ++ lbl_steps ++ LF ++ LF ++ stagesText 0 (Params.stages params)
     end
  ++ share_footer
  ++ LF ++ LF ++ tag_method.

(** ** Text parser of a brewing method *)

(** A scalar parameter: the capture of its line, unless the line is missing,
    empty or holds the placeholder of the formatter. *)
Definition param_of (label text : jsstring) : jsstring :=
  match capture1 (re_line label) text with
  | Some g => if eqb g unset then [] else trim g
  | None => []
  end.

(** [/@METHOD_ID:(method-[a-zA-Z0-9-]+)@/] *)
Definition re_method_id : regex :=
  Lit tag_method_id +> Grp 1 (Lit (utf16 "method-") +> Plus is_id_char)
  +> Lit (utf16 "@").

(** [/^\d+\.\s*\[.*?\]/]; the pattern starts with [^], so it is tried at the
    start of the line only ([match_here]). *)
Definition re_step_head : regex :=
  Plus is_digit +> Lit (utf16 ".") +> Star is_space +> Lit (utf16 "[")
  +> StarLazy is_dot +> Lit (utf16 "]").

(** [/\d+\.\s*\[(\d+)分(\d+)秒\]\s*(.*?)\s*-\s*(.*?)(?:\n|$)/] *)
Definition re_step : regex :=
  Plus is_digit +> Lit (utf16 ".") +> Star is_space +> Lit (utf16 "[")
  +> Grp 1 (Plus is_digit) +> Lit (utf16 "分") +> Grp 2 (Plus is_digit)
  +> Lit (utf16 "秒]") +> Star is_space +> Grp 3 (StarLazy is_dot) +> Star is_space
  +> Lit (utf16 "-") +> Star is_space +> Grp 4 (StarLazy is_dot) +> Eol.

(** [Math.min(20, Math.ceil(time * 0.25))] *)
Definition pourTime_of (time : Z) : Z :=
  Z.min 20 (Qceiling (inject_Z time * (25 # 100))).

(** The stage built from a step line that matched [re_step], and whether the
    line behind it was taken as its detail.  [next] is [stageLines[i + 1]]
    when [i + 1 < stageLines.length]. *)
Definition stage_of (m : result) (next : option jsstring) : Stage.t * bool :=
  let minutes := parseInt (group 1 (caps m)) in
  let seconds := parseInt (group 2 (caps m)) in
  let time := (minutes * 60 + seconds)%Z in
  let label := trim (group 3 (caps m)) in
  let water := trim (group 4 (caps m)) in
  let has_detail :=
    match next with
    | Some line => startsWith SP (trim line)
    | None => false
    end in
  let detail :=
    match next with
    | Some line => if has_detail then trim line else []
    | None => []
    end in
  let pourType :=
    if has_detail then
      if includes (utf16 "中心") detail || includes (utf16 "中央") detail
      then utf16 "center"
      else if includes (utf16 "冰块") detail || includes (utf16 "冰") detail
      then utf16 "ice"
      else utf16 "circle"
    else utf16 "circle" in
  let pourType :=
    if eqb pourType (utf16 "circle") then
      if includes (utf16 "中心") label then utf16 "center"
      else if includes (utf16 "冰块") label || includes (utf16 "冰") label
      then utf16 "ice"
      else pourType
    else pourType in
  (Stage.mk time (pourTime_of time) label water detail pourType None, has_detail).

(** The [for] loop over [stageLines]: [i] moves one line ahead, and one more
    when the next line was taken as detail. *)
Fixpoint scan_stages (stageLines : list jsstring) : list Stage.t :=
  match stageLines with
  | [] => []
  | line :: rest =>
      match match_here re_step_head line with
      | None => scan_stages rest
      | Some _ =>
          match exec re_step line with
          | None => scan_stages rest
          | Some m =>
              match rest with
              | [] => [fst (stage_of m None)]
              | next :: rest' =>
                  let (stage, skip) := stage_of m (Some next) in
                  stage :: (if skip then scan_stages rest' else scan_stages rest)
              end
          end
      end
  end.

(** [text.split("冲煮步骤:")[1].split("\n---")[0].split("\n")
      .filter(line => line.trim() is not empty)] *)
Definition stage_lines (text : jsstring) : list jsstring :=
  let stagesSection := nth 0 (split footer_cut (nth 1 (split lbl_steps text) [])) [] in
  filter (fun line => nonempty (trim line)) (split LF stagesSection).

(** [now] is the value of [Date.now()]. *)
Definition parseMethodText (now : Z) (text : jsstring) : Method.t :=
  let name :=
    match capture1 (Lit head_method +> Grp 1 (StarLazy is_dot) +> Eol) text with
    | Some g => trim g
    | None => []
    end in
  let id :=
    match capture1 re_method_id text with
    | Some g => g
    | None => utf16 "method-" ++ dec now
    end in
  let stages :=
    if includes lbl_steps text then scan_stages (stage_lines text) else [] in
  Method.mk id name
    (Params.mk (param_of lbl_coffee text) (param_of lbl_water text)
       (param_of lbl_ratio text) (param_of lbl_grind text) (param_of lbl_temp text)
       [] stages).

(** The method of [getExampleJson], the example document of the source. *)
Definition sample_method : Method.t :=
  Method.mk (utf16 "method-1") (utf16 "改良分段式一刀流")
    (Params.mk (utf16 "15g") (utf16 "225g") (utf16 "1:15") (utf16 "中细") (utf16 "94°C") []
       [Stage.mk 30 15 (utf16 "螺旋焖蒸") (utf16 "45g")
          (utf16 "加大注水搅拌力度，充分激活咖啡粉层") (utf16 "circle") None;
        Stage.mk 60 20 (utf16 "快节奏中心注水") (utf16 "90g")
          (utf16 "高水位快速注入加速可溶性物质释放") (utf16 "center") None;
        Stage.mk 120 30 (utf16 "分层绕圈注水") (utf16 "225g")
          (utf16 "分三次间隔注水控制萃取节奏") (utf16 "circle") None]).

(** ** Coffee beans

    The fields of [CoffeeBean] ([src/app/types.ts]) that the formatter reads
    and the parser writes.  An optional field that is absent is [None].  The
    percentage of a blend component is a whole number, as its declaration
    says (1-100). *)

Module Blend.
Record t := mk {
  name : jsstring;
  percentage : Z;
  origin : option jsstring;
  process : option jsstring;
  variety : option jsstring
}.
End Blend.

Module Bean.
Record t := mk {
  name : jsstring;
  capacity : jsstring;
  remaining : jsstring;
  roastLevel : option jsstring;
  roastDate : option jsstring;
  flavor : option (list jsstring);
  origin : option jsstring;
  process : option jsstring;
  variety : option jsstring;
  type : option jsstring;
  price : option jsstring;
  notes : option jsstring;
  blendComponents : option (list Blend.t)
}.
End Bean.

(** The text of an optional field when it is truthy. *)
Definition given (o : option jsstring) : option jsstring :=
  match o with
  | Some s => if nonempty s then Some s else None
  | None => None
  end.

(** [if (field) text += `<label>${field}<tail>`] *)
Definition opt_line (label : jsstring) (o : option jsstring) (tail : jsstring) : jsstring :=
  match given o with
  | Some s => label ++ s ++ tail
  | None => []
  end.

Definition lbl_blend : jsstring := Eval vm_compute in utf16 "拼配成分:".
Definition lbl_roast : jsstring := Eval vm_compute in utf16 "烘焙度:".
Definition light_roast : jsstring := Eval vm_compute in utf16 "浅度烘焙".
Definition left_over : jsstring := Eval vm_compute in utf16 " (剩余".

Definition details_of (comp : Blend.t) : list jsstring :=
  match given (Blend.origin comp) with Some s => [s] | None => [] end
  ++ match given (Blend.process comp) with Some s => [s] | None => [] end
  ++ match given (Blend.variety comp) with Some s => [s] | None => [] end.

Definition componentText (index : nat) (comp : Blend.t) : jsstring :=
  utf16 "  " ++ dec (Z.of_nat (index + 1)) ++ utf16 ". " ++ dec (Blend.percentage comp)
  ++ utf16 "% " ++ join (utf16 " | ") (details_of comp) ++ LF.

Fixpoint componentsText (index : nat) (comps : list Blend.t) : jsstring :=
  match comps with
  | [] => []
  | comp :: rest => componentText index comp ++ componentsText (S index) rest
  end.

Definition beanToReadableText (bean : Bean.t) : jsstring :=
  head_bean ++ Bean.name bean ++ LF
  ++ utf16 "容量: " ++ Bean.capacity bean ++ utf16 "g"
  ++ (if eqb (Bean.remaining bean) (Bean.capacity bean) then []
      else left_over ++ Bean.remaining bean ++ utf16 "g)")
  ++ LF
  ++ lbl_roast ++ SP
  ++ match given (Bean.roastLevel bean) with Some s => s | None => unknown end ++ LF
  ++ opt_line (utf16 "烘焙日期: ") (Bean.roastDate bean) LF
  ++ opt_line (utf16 "产地: ") (Bean.origin bean) LF
  ++ opt_line (utf16 "处理法: ") (Bean.process bean) LF
  ++ opt_line (utf16 "品种: ") (Bean.variety bean) LF
  ++ opt_line (utf16 "类型: ") (Bean.type bean) LF
  ++ opt_line (utf16 "价格: ") (Bean.price bean) (utf16 "元" ++ LF)
  ++ match Bean.flavor bean with
     | Some (f :: fs) => utf16 "风味标签: " ++ join (utf16 ", ") (f :: fs) ++ LF
     | _ => []
     end
  ++ match Bean.blendComponents bean with
     | Some (c :: cs) => LF ++ lbl_blend ++ LF ++ componentsText 0 (c :: cs)
     | _ => []
     end
  ++ opt_line (LF ++ utf16 "备注: ") (Bean.notes bean) LF
  ++ LF ++ share_footer
  ++ LF ++ LF ++ tag_bean.

(** [/\d+\.\s*(.*?)\s*\((\d+)%\)/] *)
Definition re_blend : regex :=
  Plus is_digit +> Lit (utf16 ".") +> Star is_space +> Grp 1 (StarLazy is_dot)
  +> Star is_space +> Lit (utf16 "(") +> Grp 2 (Plus is_digit) +> Lit (utf16 "%)").

(** One round of [components.forEach]. *)
Definition component_of (comp : jsstring) : list Blend.t :=
  match exec re_blend comp with
  | Some m =>
      if nonempty (group 1 (caps m)) && nonempty (group 2 (caps m))
      then [Blend.mk (trim (group 1 (caps m))) (parseInt (group 2 (caps m))) None None None]
      else []
  | None => []
  end.

Definition blend_section (text : jsstring) : jsstring :=
  nth 0 (split footer_cut (nth 1 (split lbl_blend text) [])) [].

(** A labelled line whose value is kept trimmed when it is there. *)
Definition line_of (label text : jsstring) : option jsstring :=
  option_map trim (capture1 (re_line label) text).

Definition parseCoffeeBeanText (text : jsstring) : Bean.t :=
  let name :=
    match capture1 (Lit head_bean +> Grp 1 (StarLazy is_dot) +> Eol) text with
    | Some g => trim g
    | None => []
    end in
  let capacity :=
    match capture1 (re_amount (utf16 "容量:") (utf16 "g")) text with
    | Some g => g
    | None => []
    end in
  let remaining :=
    match capture1 (Lit (utf16 "剩余") +> Grp 1 (Plus is_digit) +> Lit (utf16 "g")) text with
    | Some g => g
    | None => capacity
    end in
  let roastLevel :=
    match capture1 (re_line lbl_roast) text with
    | Some g => if eqb g unknown then light_roast else trim g
    | None => light_roast
    end in
  let flavor :=
    match capture1 (re_line (utf16 "风味标签:")) text with
    | Some g => map trim (split (utf16 ",") g)
    | None => []
    end in
  let blendComponents :=
    if includes lbl_blend text
    then Some (flat_map component_of (match_all re_blend (blend_section text)))
    else None in
  Bean.mk name capacity remaining (Some roastLevel)
    (line_of (utf16 "烘焙日期:") text)
    (Some flavor)
    (line_of (utf16 "产地:") text)
    (line_of (utf16 "处理法:") text)
    (line_of (utf16 "品种:") text)
    (line_of (utf16 "类型:") text)
    (capture1 (re_amount (utf16 "价格:") (utf16 "元")) text)
    (line_of (utf16 "备注:") text)
    blendComponents.

(** ** Brewing notes (text parser only) *)

Module Taste.
Record t := mk { acidity : Z; sweetness : Z; bitterness : Z; body : Z }.
End Taste.

Module Note.
Record t := mk {
  id : jsstring;
  equipment : jsstring;
  method : jsstring;
  beanName : jsstring;
  beanRoastLevel : jsstring;
  coffee : jsstring;
  water : jsstring;
  ratio : jsstring;
  grindSize : jsstring;
  temp : jsstring;
  taste : Taste.t;
  rating : Z;
  notes : jsstring
}.
End Note.

(** [/<label>\s*(\d+)\/5/], 0 when the line is missing. *)
Definition score_of (label text : jsstring) : Z :=
  match capture1 (re_amount label (utf16 "/5")) text with
  | Some g => parseInt g
  | None => 0%Z
  end.

Definition parseBrewingNoteText (now : Z) (text : jsstring) : Note.t :=
  let in_params (v : jsstring) :=
    if includes (utf16 "参数设置:") text then v else [] in
  let in_taste (v : Z) :=
    if includes (utf16 "风味评分:") text then v else 0%Z in
  let notes :=
    if includes (utf16 "笔记:") text
    then trim (nth 0 (split footer_cut (nth 1 (split (utf16 "笔记:") text) [])) [])
    else [] in
  Note.mk (utf16 "note-" ++ dec now)
    (param_of (utf16 "设备:") text)
    (param_of (utf16 "方法:") text)
    (param_of (utf16 "咖啡豆:") text)
    (param_of lbl_roast text)
    (in_params (param_of lbl_coffee text))
    (in_params (param_of lbl_water text))
    (in_params (param_of lbl_ratio text))
    (in_params (param_of lbl_grind text))
    (in_params (param_of lbl_temp text))
    (Taste.mk (in_taste (score_of (utf16 "酸度:") text))
       (in_taste (score_of (utf16 "甜度:") text))
       (in_taste (score_of (utf16 "苦度:") text))
       (in_taste (score_of (utf16 "醇厚度:") text)))
    (score_of (utf16 "综合评分:") text)
    notes.

Definition sample_bean : Bean.t :=
  Bean.mk (utf16 "Blend A") (utf16 "200") (utf16 "150") None None
    (Some [utf16 "berry"; utf16 "cocoa"]) None None None None (Some (utf16 "88")) None
    (Some [Blend.mk (utf16 "x") 60 (Some (utf16 "Kenya")) (Some (utf16 "washed")) None;
           Blend.mk (utf16 "y") 40 (Some (utf16 "Brazil (40%)")) None None]).

(** ** JSON values

    What [JSON.parse] returns, with [undefined] added for the result of
    reading a property that is not there.  A number of a JSON text is a
    rational; the double that JavaScript keeps is a rational too, and only
    its being zero or not matters below. *)

Module Json.

#[local] Unset Elimination Schemes.
Inductive value : Type :=
| Undefined
| Null
| Bool (b : bool)
| Num (q : Q)
| Str (s : jsstring)
| Arr (items : list value)
| Obj (fields : list (jsstring * value)).
#[local] Set Elimination Schemes.

Definition truthy (v : value) : bool :=
  match v with
  | Undefined | Null => false
  | Bool b => b
  | Num q => negb (Qeq_bool q 0)
  | Str s => nonempty s
  | Arr _ | Obj _ => true
  end.

(** [a || b] *)
Definition or (a b : value) : value := if truthy a then a else b.

Fixpoint lookup (key : jsstring) (fields : list (jsstring * value)) : value :=
  match fields with
  | [] => Undefined
  | (k, v) :: rest => if eqb key k then v else lookup key rest
  end.

(** [v.key] for the property names read by the source, none of which is a
    property of a string, number, boolean or array, nor inherited by an
    object: [None] is the [TypeError] of reading a property of [null] or
    [undefined]. *)
Definition get (v : value) (key : jsstring) : option value :=
  match v with
  | Undefined | Null => None
  | Obj fields => Some (lookup key fields)
  | _ => Some Undefined
  end.

(** [v?.key] *)
Definition get_opt (v : value) (key : jsstring) : value :=
  match get v key with
  | Some x => x
  | None => Undefined
  end.

(** [[s1, ..., sn].includes(v)] for string literals [si]: [SameValueZero]
    holds for a string of the same code units only. *)
Definition one_of (l : list jsstring) (v : value) : bool :=
  match v with
  | Str s => existsb (eqb s) l
  | _ => false
  end.

Definition isArray (v : value) : bool :=
  match v with Arr _ => true | _ => false end.

End Json.

(** ** JSON codec: [parseMethodFromJson]

    The method built from a JSON document keeps the values of the document
    as they are; nothing converts them to strings or numbers. *)

Module JStage.
Record t := mk {
  time : Json.value;
  pourTime : Json.value;
  label : Json.value;
  water : Json.value;
  detail : Json.value;
  pourType : Json.value;
  valveStatus : Json.value
}.
End JStage.

Module JParams.
Record t := mk {
  coffee : Json.value;
  water : Json.value;
  ratio : Json.value;
  grindSize : Json.value;
  temp : Json.value;
  videoUrl : Json.value;
  stages : list JStage.t
}.
End JParams.

Module JMethod.
Record t := mk {
  id : jsstring;
  name : Json.value;
  params : JParams.t
}.
End JMethod.

(** Exceptions inside a [try] block: [None] is a [throw]. *)
Definition bind {A B : Type} (x : option A) (f : A -> option B) : option B :=
  match x with
  | Some a => f a
  | None => None
  end.

Notation "x <- e ;; k" := (bind e (fun x => k))
  (at level 61, e at next level, right associativity).

Fixpoint mapM {A B : Type} (f : A -> option B) (l : list A) : option (list B) :=
  match l with
  | [] => Some []
  | a :: l' => b <- f a ;; bs <- mapM f l' ;; Some (b :: bs)
  end.

Definition pour_types : list jsstring :=
  [utf16 "center"; utf16 "circle"; utf16 "ice"; utf16 "other"].

Definition valve_states : list jsstring := [utf16 "open"; utf16 "closed"].

(** The name of a property, as a string of the source. *)
Definition prop (s : string) : jsstring := utf16 s.

(** The callback of [parsedData.params.stages.map]. *)
Definition normalize_stage (stage : Json.value) : option JStage.t :=
  pt <- Json.get stage (prop "pourType") ;;
  let pourType := Json.or pt (Json.Str (utf16 "circle")) in
  let pourType :=
    if negb (Json.one_of pour_types pourType)
    then (if Json.one_of [utf16 "spiral"] pourType
          then Json.Str (utf16 "circle") else Json.Str (utf16 "circle"))
    else pourType in
  vs <- Json.get stage (prop "valveStatus") ;;
  let valveStatus := Json.or vs (Json.Str []) in
  let valveStatus :=
    if Json.truthy valveStatus && negb (Json.one_of valve_states valveStatus)
    then Json.Str [] else valveStatus in
  time <- Json.get stage (prop "time") ;;
  pourTime <- Json.get stage (prop "pourTime") ;;
  label <- Json.get stage (prop "label") ;;
  water <- Json.get stage (prop "water") ;;
  detail <- Json.get stage (prop "detail") ;;
  Some (JStage.mk (Json.or time (Json.Num 0)) (Json.or pourTime (Json.Num 0))
          (Json.or label (Json.Str [])) (Json.or water (Json.Str []))
          (Json.or detail (Json.Str [])) pourType valveStatus).

(** [`${Date.now()}-${Math.random().toString(36).substr(2, 9)}`]: [now] is
    the clock and [random36] the text [Math.random().toString(36)]. *)
Definition fresh_id (now : Z) (random36 : jsstring) : jsstring :=
  dec now ++ utf16 "-" ++ firstn 9 (skipn 2 random36).

Definition json_open : jsstring := Eval vm_compute in utf16 "<!--JSON_DATA:".
Definition json_close : jsstring := Eval vm_compute in utf16 "-->".

(** [parsedData.params?.<key> || <dflt>] *)
Definition param_or (params : Json.value) (key dflt : string) : Json.value :=
  Json.or (Json.get_opt params (prop key)) (Json.Str (utf16 dflt)).

Section Runtime.

(** The two services of the JavaScript runtime that the codec calls:
    [JSON.parse], with [None] for its [SyntaxError], and the conversion of
    a value to a string in a template literal, with [None] for its
    [TypeError]. *)
Variable JSON_parse : jsstring -> option Json.value.
Variable ToString : Json.value -> option jsstring.

(** The body of the [try] block behind [JSON.parse]. *)
Definition method_of_parsed (now : Z) (random36 : jsstring) (parsedData : Json.value)
  : option JMethod.t :=
  method <- Json.get parsedData (prop "method") ;;
  equipment <- Json.get parsedData (prop "equipment") ;;
  if negb (Json.truthy method) && negb (Json.truthy equipment) then None else
  let id := fresh_id now random36 in
  name <- (if Json.truthy method then Some method
           else s <- ToString equipment ;; Some (Json.Str (s ++ utf16 "优化方案"))) ;;
  params <- Json.get parsedData (prop "params") ;;
  let coffee := param_or params "coffee" "15g" in
  let water := param_or params "water" "225g" in
  let ratio := param_or params "ratio" "1:15" in
  let grindSize := param_or params "grindSize" "中细" in
  let temp := param_or params "temp" "92°C" in
  let videoUrl := param_or params "videoUrl" EmptyString in
  stages <- match Json.get_opt params (prop "stages") with
            | Json.Arr items => mapM normalize_stage items
            | _ => Some []
            end ;;
  match stages with
  | [] => None
  | _ :: _ =>
      Some (JMethod.mk id name
              (JParams.mk coffee water ratio grindSize temp videoUrl stages))
  end.

Definition parseMethodFromJson (now : Z) (random36 : jsstring) (jsonString : jsstring)
  : option JMethod.t :=
  parsedData <- JSON_parse jsonString ;;
  method_of_parsed now random36 parsedData.

(** ** Dispatcher *)

Inductive extracted : Type :=
| JsonData (v : Json.value)
| BeanData (bean : Bean.t)
| MethodData (method : Method.t)
| NoteData (note : Note.t).

Definition null : extracted := JsonData Json.Null.

(** [/<!--JSON_DATA:([^]*?)-->/] *)
Definition re_json_block : regex :=
  Lit json_open +> Grp 1 (StarLazy is_any) +> Lit json_close.

Definition extractJsonFromText (now : Z) (text : jsstring) : extracted :=
  match JSON_parse text with
  | Some data => JsonData data
  | None =>
      match capture1 re_json_block text with
      | Some body =>
          match JSON_parse body with
          | Some data => JsonData data
          | None => null
          end
      | None =>
          if includes tag_bean text then BeanData (parseCoffeeBeanText text)
          else if includes tag_method text then MethodData (parseMethodText now text)
          else if includes tag_note text then NoteData (parseBrewingNoteText now text)
          else if includes head_bean text then BeanData (parseCoffeeBeanText text)
          else if includes head_method text then MethodData (parseMethodText now text)
          else if includes head_note text then NoteData (parseBrewingNoteText now text)
          else null
      end
  end.

End Runtime.

(** ** A runtime to run the examples on

    [json_parse] reads the JSON grammar (objects, arrays, strings with their
    escapes, numbers, [true], [false], [null]) into [Json.value]; a later
    duplicate of a key wins, as in JavaScript.  [to_string] is the
    conversion of a template literal on strings, whole numbers, booleans,
    [null], arrays of these and objects: a plain object gives
    [[object Object]], and an object with a [toString] entry of its own has
    nothing callable to convert it, which is the [TypeError].  The closed
    examples below instantiate [JSON_parse] and [ToString] with them. *)

Module Sample.

Definition is_json_ws (c : char) : bool :=
  ((c =? 32) || (c =? 9) || (c =? 10) || (c =? 13))%N.

Definition hex (c : char) : option N :=
  if is_digit c then Some (c - 48)%N
  else if ((97 <=? c) && (c <=? 102))%N then Some (c - 87)%N
  else if ((65 <=? c) && (c <=? 70))%N then Some (c - 55)%N
  else None.

Definition escape (c : char) : option char :=
  if (c =? 34)%N then Some 34%N else if (c =? 92)%N then Some 92%N
  else if (c =? 47)%N then Some 47%N else if (c =? 98)%N then Some 8%N
  else if (c =? 102)%N then Some 12%N else if (c =? 110)%N then Some 10%N
  else if (c =? 114)%N then Some 13%N else if (c =? 116)%N then Some 9%N
  else None.

(** The text of a string behind its opening quote. *)
Fixpoint read_string (s acc : jsstring) : option (jsstring * jsstring) :=
  match s with
  | [] => None
  | c :: rest =>
      if (c =? 34)%N then Some (rev acc, rest)
      else if (c =? 92)%N then
        match rest with
        | e :: rest1 =>
            if (e =? 117)%N then
              match rest1 with
              | h1 :: h2 :: h3 :: h4 :: rest2 =>
                  match hex h1, hex h2, hex h3, hex h4 with
                  | Some a, Some b, Some c', Some d =>
                      read_string rest2 ((a * 4096 + b * 256 + c' * 16 + d)%N :: acc)
                  | _, _, _, _ => None
                  end
              | _ => None
              end
            else match escape e with
                 | Some x => read_string rest1 (x :: acc)
                 | None => None
                 end
        | [] => None
        end
      else if (c <? 32)%N then None
      else read_string rest (c :: acc)
  end.

Fixpoint span (p : char -> bool) (s : jsstring) : jsstring * jsstring :=
  match s with
  | c :: s' => if p c then let (a, b) := span p s' in (c :: a, b) else ([], s)
  | [] => ([], [])
  end.

Definition pow10 (e : Z) : Q :=
  if (0 <=? e)%Z then inject_Z (10 ^ e) else Qmake 1 (Z.to_pos (10 ^ (- e))).

(** [-? int frac? exp?] *)
Definition read_number (s : jsstring) : option (Q * jsstring) :=
  let (neg, s1) := match s with
                   | c :: r => if (c =? 45)%N then (true, r) else (false, s)
                   | [] => (false, s)
                   end in
  let (int, s2) := span is_digit s1 in
  match int with
  | [] => None
  | d :: ds =>
      if (d =? 48)%N && nonempty ds then None else
      let frac_rest :=
        match s2 with
        | c :: r => if (c =? 46)%N
                    then let (fr, r') := span is_digit r in
                         match fr with [] => None | _ => Some (fr, r') end
                    else Some ([], s2)
        | [] => Some ([], s2)
        end in
      match frac_rest with
      | None => None
      | Some (fr, s3) =>
          let exp_rest :=
            match s3 with
            | c :: r =>
                if ((c =? 101) || (c =? 69))%N then
                  let (sgn, r1) := match r with
                                   | c1 :: r' => if (c1 =? 45)%N then ((-1)%Z, r')
                                                 else if (c1 =? 43)%N then (1%Z, r')
                                                 else (1%Z, r)
                                   | [] => (1%Z, r)
                                   end in
                  let (ex, r2) := span is_digit r1 in
                  match ex with [] => None | _ => Some ((sgn * parseInt ex)%Z, r2) end
                else Some (0%Z, s3)
            | [] => Some (0%Z, s3)
            end in
          match exp_rest with
          | None => None
          | Some (e, s4) =>
              let mant := parseInt (int ++ fr) in
              let q := Qred (inject_Z mant * pow10 (e - Z.of_nat (length fr))) in
              Some (if neg then Qopp q else q, s4)
          end
      end
  end.

Definition skip_ws : jsstring -> jsstring := dropWhile is_json_ws.

Fixpoint read_value (fuel : nat) (s : jsstring) : option (Json.value * jsstring) :=
  match fuel with
  | O => None
  | S f =>
      let read_items :=
        fix items (g : nat) (acc : list Json.value) (s : jsstring)
          : option (Json.value * jsstring) :=
          match g with
          | O => None
          | S g' =>
              match read_value f s with
              | None => None
              | Some (v, r) =>
                  match skip_ws r with
                  | c :: r' =>
                      if (c =? 44)%N then items g' (v :: acc) r'
                      else if (c =? 93)%N then Some (Json.Arr (rev (v :: acc)), r')
                      else None
                  | [] => None
                  end
              end
          end in
      let read_members :=
        fix members (g : nat) (acc : list (jsstring * Json.value)) (s : jsstring)
          : option (Json.value * jsstring) :=
          match g with
          | O => None
          | S g' =>
              match skip_ws s with
              | q :: r0 =>
                  if (q =? 34)%N then
                    match read_string r0 [] with
                    | None => None
                    | Some (key, r1) =>
                        match skip_ws r1 with
                        | c :: r2 =>
                            if (c =? 58)%N then
                              match read_value f r2 with
                              | None => None
                              | Some (v, r3) =>
                                  match skip_ws r3 with
                                  | c' :: r4 =>
                                      if (c' =? 44)%N then members g' ((key, v) :: acc) r4
                                      else if (c' =? 125)%N
                                      then Some (Json.Obj ((key, v) :: acc), r4)
                                      else None
                                  | [] => None
                                  end
                              end
                            else None
                        | [] => None
                        end
                    end
                  else None
              | [] => None
              end
          end in
      match skip_ws s with
      | [] => None
      | c :: r =>
          if (c =? 123)%N then
            match skip_ws r with
            | c' :: r' => if (c' =? 125)%N then Some (Json.Obj [], r')
                          else read_members (length s) [] r
            | [] => None
            end
          else if (c =? 91)%N then
            match skip_ws r with
            | c' :: r' => if (c' =? 93)%N then Some (Json.Arr [], r')
                          else read_items (length s) [] r
            | [] => None
            end
          else if (c =? 34)%N then
            match read_string r [] with
            | Some (str, r') => Some (Json.Str str, r')
            | None => None
            end
          else if startsWith (utf16 "true") (c :: r)
          then Some (Json.Bool true, skipn 4 (c :: r))
          else if startsWith (utf16 "false") (c :: r)
          then Some (Json.Bool false, skipn 5 (c :: r))
          else if startsWith (utf16 "null") (c :: r)
          then Some (Json.Null, skipn 4 (c :: r))
          else match read_number (c :: r) with
               | Some (q, r') => Some (Json.Num q, r')
               | None => None
               end
      end
  end.

Definition json_parse (s : jsstring) : option Json.value :=
  match read_value (S (length s)) s with
  | Some (v, r) => match skip_ws r with [] => Some v | _ :: _ => None end
  | None => None
  end.

Definition has_key (key : jsstring) (fields : list (jsstring * Json.value)) : bool :=
  existsb (fun kv => eqb key (fst kv)) fields.

Fixpoint to_string (v : Json.value) : option jsstring :=
  match v with
  | Json.Undefined => Some (utf16 "undefined")
  | Json.Null => Some (utf16 "null")
  | Json.Bool b => Some (if b then utf16 "true" else utf16 "false")
  | Json.Num q => Some (dec (Qfloor q))
  | Json.Str s => Some s
  | Json.Arr items =>
      (fix go (l : list Json.value) : option jsstring :=
         match l with
         | [] => Some []
         | x :: l' =>
             match (match x with
                    | Json.Undefined | Json.Null => Some []
                    | _ => to_string x
                    end), go l' with
             | Some a, Some b => Some (match l' with [] => a | _ => a ++ utf16 "," ++ b end)
             | _, _ => None
             end
         end) items
  | Json.Obj fields =>
      if has_key (utf16 "toString") fields then None else Some (utf16 "[object Object]")
  end.

(** A JSON text written with ['] where JSON has its double quote. *)
Definition json (s : string) : jsstring :=
  map (fun c => if (c =? 39)%N then 34%N else c) (utf16 s).

End Sample.

(** ** Auxiliary definitions of the statements and the examples *)

Ltac unbind H :=
  unfold bind in H;
  repeat match type of H with
         | match ?x with _ => _ end = Some _ =>
             let E := fresh "E" in destruct x eqn:E; [|discriminate H]
         end.

(** The stage entries of a parsed document: [parsedData.params?.stages]. *)
Definition stage_entries (parsedData : Json.value) : Json.value :=
  Json.get_opt (Json.get_opt parsedData (prop "params")) (prop "stages").

(** [suffix t s]: [t] is what is left of [s] behind some prefix. *)
Definition suffix (t s : jsstring) : Prop := exists p, s = p ++ t.

Definition sample_random36 : jsstring := utf16 "0.4fzyo82mvyr".

(** The document of the specification's enumeration example. *)
Definition doc_enums : jsstring :=
  Sample.json
    "{'method':'X','id':'m-1','params':{'stages':[{'time':30,'pourType':'spiral','valveStatus':'halfopen'},{'pourType':'ice','valveStatus':'open'}]}}".

Definition doc_null_stage : jsstring :=
  Sample.json "{'method':'X','params':{'stages':[null]}}".

Definition doc_empty_method : jsstring :=
  Sample.json "{'method':'','params':{'stages':[{}]}}".

Definition doc_no_stages : jsstring :=
  Sample.json "{'method':'X','params':{}}".

Definition text_with_id : jsstring :=
  head_method ++ utf16 "V60 @METHOD_ID:method-abc@".

Definition text_empty_block : jsstring :=
  json_open ++ json_close ++ head_bean ++ utf16 "Kenya AA".

Definition text_indented_detail : jsstring :=
  lbl_steps ++ LF ++ utf16 "1. [0分30秒] 焖蒸 - 45g" ++ LF ++ utf16 "   轻轻搅拌" ++ LF.

(** The contents of the leftmost block of a text: what stands between the
    first opening mark [<!--JSON_DATA:] and the nearest closing mark [-->]
    behind it.  A text without opening mark, or without closing mark behind
    the first opening mark, has no block. *)
Definition leftmost_block (text : jsstring) : option jsstring :=
  match indexOf json_open text with
  | None => None
  | Some i =>
      let rest := skipn (i + length json_open) text in
      match indexOf json_close rest with
      | None => None
      | Some j => Some (firstn j rest)
      end
  end.

Definition text_block_gt : jsstring :=
  json_open ++ Sample.json "{'a':'x>y'}" ++ json_close ++ head_bean ++ utf16 "K".

Definition text_unclosed_block : jsstring :=
  json_open ++ Sample.json "{'a':1}" ++ head_bean ++ utf16 "K".

(** The third step line of the text of [sample_method]. *)
Definition sample_step_line : jsstring :=
  utf16 "3. [2分0秒] (注水30秒) [绕圈注水] 分层绕圈注水 - 225g".

(** The field [v] of an imported method is [params?.<key> || <dflt>]: the
    value of the document when it is truthy, else the default, so the
    default when the document has no such field. *)
Definition defaulted (params : Json.value) (key dflt : string) (v : Json.value) : Prop :=
  v = Json.or (Json.get_opt params (prop key)) (Json.Str (utf16 dflt))
  /\ (Json.get_opt params (prop key) = Json.Undefined -> v = Json.Str (utf16 dflt)).

(** [P] holds of the value of [o], and [o] has one. *)
Definition holds {A : Type} (o : option A) (P : A -> Prop) : Prop :=
  match o with
  | Some a => P a
  | None => False
  end.

(** The table of the last two tiers as the specification lists it: the
    three hidden markers, then the three section headers, each with the
    result of its parser. *)
Definition tier_table (now : Z) (text : jsstring) : list (jsstring * extracted) :=
  [(tag_bean, BeanData (parseCoffeeBeanText text));
   (tag_method, MethodData (parseMethodText now text));
   (tag_note, NoteData (parseBrewingNoteText now text));
   (head_bean, BeanData (parseCoffeeBeanText text));
   (head_method, MethodData (parseMethodText now text));
   (head_note, NoteData (parseBrewingNoteText now text))].

(** The first entry of a table whose mark the text holds. *)
Fixpoint first_route (text : jsstring) (table : list (jsstring * extracted)) : extracted :=
  match table with
  | [] => null
  | (mark, r) :: rest => if includes mark text then r else first_route text rest
  end.

(** The same method with no pour time and no pour type in its stages, so
    that the formatter writes neither note in front of the labels. *)
Definition without_notes (m : Method.t) : Method.t :=
  let p := Method.params m in
  Method.mk (Method.id m) (Method.name m)
    (Params.mk (Params.coffee p) (Params.water p) (Params.ratio p) (Params.grindSize p)
       (Params.temp p) (Params.videoUrl p)
       (map (fun st => Stage.mk (Stage.time st) 0 (Stage.label st) (Stage.water st)
                         (Stage.detail st) [] (Stage.valveStatus st))
            (Params.stages p))).

(** A method without coffee amount whose name reads like a parameter
    line. *)
Definition method_named (name : jsstring) : Method.t :=
  Method.mk (utf16 "method-1") name
    (Params.mk [] (utf16 "225g") (utf16 "1:15") (utf16 "中细") (utf16 "92°C") []
       [Stage.mk 30 10 (utf16 "焖蒸") (utf16 "45g") [] (utf16 "circle") None]).

(** No opening parenthesis in a text. *)
Definition paren_free (s : jsstring) : bool := forallb (fun c => negb (c =? 40)%N) s.

(** [<digits>%)] stands at the front of the text: what the blend pattern
    needs behind an opening parenthesis. *)
Definition percent_here (s : jsstring) : bool :=
  match s with
  | d :: _ => is_digit d && startsWith (utf16 "%)") (dropWhile is_digit s)
  | [] => false
  end.

(** The text holds no [(<digits>%)]. *)
Fixpoint no_percent (s : jsstring) : bool :=
  match s with
  | [] => true
  | c :: s' => negb ((c =? 40)%N && percent_here s') && no_percent s'
  end.

Definition opt_no_percent (o : option jsstring) : bool :=
  match o with
  | Some s => no_percent s
  | None => true
  end.

Definition component_no_percent (comp : Blend.t) : bool :=
  opt_no_percent (Blend.origin comp) && opt_no_percent (Blend.process comp)
  && opt_no_percent (Blend.variety comp).

(** No text field of the bean that the formatter prints holds a
    parenthesised percentage [(<digits>%)]. *)
Definition bean_no_percent (bean : Bean.t) : bool :=
  no_percent (Bean.name bean) && no_percent (Bean.capacity bean)
  && no_percent (Bean.remaining bean) && opt_no_percent (Bean.roastLevel bean)
  && opt_no_percent (Bean.roastDate bean) && opt_no_percent (Bean.origin bean)
  && opt_no_percent (Bean.process bean) && opt_no_percent (Bean.variety bean)
  && opt_no_percent (Bean.type bean) && opt_no_percent (Bean.price bean)
  && opt_no_percent (Bean.notes bean)
  && match Bean.flavor bean with Some fs => forallb no_percent fs | None => true end
  && match Bean.blendComponents bean with
     | Some cs => forallb component_no_percent cs
     | None => true
     end.

(** A code unit that cannot go on a parenthesised percentage: no digit,
    no [%], no [)]. *)
Definition closes (c : char) : bool :=
  negb (is_digit c) && negb (c =? 37)%N && negb (c =? 41)%N.

Definition closed_front (s : jsstring) : bool :=
  match s with
  | [] => true
  | c :: _ => closes c
  end.

Definition bean_with_origin (origin : jsstring) : Bean.t :=
  Bean.mk (utf16 "Blend A") (utf16 "200") (utf16 "200") (Some (utf16 "中度烘焙")) None None
    None None None None None None
    (Some [Blend.mk (utf16 "Kenya") 30 (Some origin) None None]).

(** A bean with parentheses in its name, its notes, a flavor tag and the
    origin of a component, none of them a parenthesised percentage. *)
Definition bean_with_parentheses : Bean.t :=
  Bean.mk (utf16 "Ethiopia (Natural)") (utf16 "200") (utf16 "150") (Some (utf16 "中度烘焙"))
    None (Some [utf16 "莓果 (berry)"]) None None None None None (Some (utf16 "好喝 (真的)"))
    (Some [Blend.mk (utf16 "Kenya") 30 (Some (utf16 "Kenya (AA)")) None None]).

(** A blend of one plain component under the given name. *)
Definition bean_named (name : jsstring) : Bean.t :=
  Bean.mk name (utf16 "200") (utf16 "200") (Some (utf16 "中度烘焙")) None None
    None None None None None None
    (Some [Blend.mk (utf16 "Kenya") 30 (Some (utf16 "Kenya")) None None]).

(** * Properties *)

(** ** Examples of the string model *)

Example utf16_header : utf16 "【咖啡豆】" = [12304; 21654; 21857; 35910; 12305]%N.
Proof. reflexivity. Qed.

Example utf16_degree : utf16 "92°C" = [57; 50; 176; 67]%N.
Proof. reflexivity. Qed.

Example dec_neg : dec (-30) = utf16 "-30" /\ dec 0 = utf16 "0" /\ dec 225 = utf16 "225".
Proof. repeat split. Qed.

Example split_ex :
  split (utf16 "--") (utf16 "a--b----c") = [utf16 "a"; utf16 "b"; []; utf16 "c"].
Proof. reflexivity. Qed.

Example trim_ex : trim (utf16 "   stir gently  ") = utf16 "stir gently".
Proof. reflexivity. Qed.

Example re_line_ex :
  capture1 (re_line (utf16 "水量:")) (utf16 "咖啡粉量: 15g" ++ LF ++ utf16 "水量:  225g " ++ LF)
  = Some (utf16 "225g ").
Proof. reflexivity. Qed.

Example re_line_cr :
  capture1 (re_line (utf16 "a:")) (utf16 "a: x" ++ [13%N; 10%N]) = None.
Proof. reflexivity. Qed.


(** ** Strings *)

Lemma eqb_eq (a b : jsstring) : eqb a b = true <-> a = b.
Proof.
  revert b; induction a as [|x a IH]; intros [|y b]; simpl; split; try congruence; intro H.
  - apply andb_true_iff in H as [Hx Hab]. apply N.eqb_eq in Hx. apply IH in Hab. congruence.
  - injection H as -> ->. rewrite N.eqb_refl. simpl. now apply IH.
Qed.

Lemma eqb_refl (a : jsstring) : eqb a a = true.
Proof. now apply eqb_eq. Qed.

Lemma dropWhile_head (p : char -> bool) (s : jsstring) :
  match dropWhile p s with [] => True | c :: _ => p c = false end.
Proof.
  induction s as [|c s IH]; simpl; [exact I|].
  destruct (p c) eqn:E; [exact IH | exact E].
Qed.

Lemma dropWhile_snoc (p : char -> bool) (l : jsstring) (c : char) :
  p c = false -> dropWhile p (l ++ [c]) = dropWhile p l ++ [c].
Proof.
  intro Hc. induction l as [|x l IH]; simpl.
  - now rewrite Hc.
  - destruct (p x); [exact IH | reflexivity].
Qed.

(** What [trim] returns starts with no white space. *)
Lemma trim_head (s : jsstring) :
  match trim s with [] => True | c :: _ => is_space c = false end.
Proof.
  unfold trim. pose proof (dropWhile_head is_space s) as H.
  destruct (dropWhile is_space s) as [|c t]; [exact I|].
  simpl rev at 2. rewrite dropWhile_snoc by exact H.
  rewrite rev_app_distr. simpl. exact H.
Qed.

Lemma trim_not_indented (s : jsstring) : startsWith SP (trim s) = false.
Proof.
  pose proof (trim_head s) as H. destruct (trim s) as [|c t]; [reflexivity|].
  unfold SP, startsWith. destruct (N.eqb_spec 32 c) as [<-|]; [discriminate H | reflexivity].
Qed.

(** ** The scan of the step list *)

Lemma stage_of_no_detail (m : result) (next : option jsstring) :
  snd (stage_of m next) = false /\ Stage.detail (fst (stage_of m next)) = [].
Proof.
  unfold stage_of. destruct next as [line|]; cbv zeta.
  - rewrite trim_not_indented. split; reflexivity.
  - split; reflexivity.
Qed.

Lemma stage_of_time (m : result) (next : option jsstring) :
  let t := (parseInt (group 1 (caps m)) * 60 + parseInt (group 2 (caps m)))%Z in
  Stage.time (fst (stage_of m next)) = t
  /\ Stage.pourTime (fst (stage_of m next)) = pourTime_of t.
Proof. split; reflexivity. Qed.

(** Every stage of the scan comes from a line that matched the step
    pattern, and the scan never takes a line as detail. *)
Lemma scan_stages_origin (stageLines : list jsstring) (st : Stage.t) :
  In st (scan_stages stageLines) ->
  exists line m next,
    In line stageLines /\ exec re_step line = Some m /\ st = fst (stage_of m next).
Proof.
  induction stageLines as [|line rest IH]; cbn [scan_stages In]; [tauto|].
  assert (Hrest : In st (scan_stages rest) ->
                  exists line0 m next,
                    (line = line0 \/ In line0 rest) /\ exec re_step line0 = Some m
                    /\ st = fst (stage_of m next)).
  { intro H. destruct (IH H) as (l & m & nx & Hin & Hm & Hst).
    exists l, m, nx. auto. }
  destruct (match_here re_step_head line); [|exact Hrest].
  destruct (exec re_step line) as [m|] eqn:Em; [|exact Hrest].
  destruct rest as [|next rest'].
  - cbn [In]. intros [<-|[]]. exists line, m, None. auto.
  - pose proof (stage_of_no_detail m (Some next)) as [Hskip _].
    destruct (stage_of m (Some next)) as [stage skip] eqn:Es. cbn [snd] in Hskip.
    subst skip. cbn [In]. intros [<-|H].
    + exists line, m, (Some next). rewrite Es. auto.
    + exact (Hrest H).
Qed.

Lemma pourTime_of_quarter (t : Z) :
  pourTime_of t = Z.min 20 (Qceiling (inject_Z t * (1 # 4)))
  /\ pourTime_of t = Z.min 20 ((t + 3) / 4).
Proof.
  unfold pourTime_of.
  assert (E : Qceiling (inject_Z t * (25 # 100)) = Qceiling (inject_Z t * (1 # 4))).
  { apply Qceiling_comp. apply Qmult_comp; [reflexivity|]. reflexivity. }
  rewrite E. split; [reflexivity|]. f_equal.
  unfold Qceiling, Qfloor, Qopp, Qmult, inject_Z. simpl.
  rewrite Z.mul_1_r.
  pose proof (Z.div_mod (- t) 4 ltac:(lia)) as H1.
  pose proof (Z.mod_pos_bound (- t) 4 ltac:(lia)) as H2.
  pose proof (Z.div_mod (t + 3) 4 ltac:(lia)) as H3.
  pose proof (Z.mod_pos_bound (t + 3) 4 ltac:(lia)) as H4.
  lia.
Qed.

(** ** The JSON codec *)

Lemma one_of_In (l : list jsstring) (v : Json.value) :
  Json.one_of l v = true -> In v (map Json.Str l).
Proof.
  destruct v; simpl; try discriminate. intro H.
  apply existsb_exists in H as (x & Hx & E). apply eqb_eq in E. subst x.
  now apply in_map.
Qed.

Lemma one_of_truthy (l : list jsstring) (v : Json.value) :
  forallb nonempty l = true -> Json.one_of l v = true -> Json.truthy v = true.
Proof.
  intros Hl H. destruct v; simpl in *; try discriminate.
  apply existsb_exists in H as (x & Hx & E). apply eqb_eq in E. subst x.
  rewrite forallb_forall in Hl. now apply Hl.
Qed.

(** [normalize_stage] throws on [null] and [undefined] only. *)
Lemma normalize_stage_none (entry : Json.value) :
  normalize_stage entry = None <-> entry = Json.Null \/ entry = Json.Undefined.
Proof.
  split.
  - destruct entry; simpl; intro H; auto; discriminate H.
  - intros [-> | ->]; reflexivity.
Qed.

(** The two enumerations after [normalize_stage]: a pour type that is not
    one of the four becomes [circle], a valve state that is not one of the
    two becomes the empty string. *)
Lemma normalize_stage_enums (entry : Json.value) (st : JStage.t) :
  normalize_stage entry = Some st ->
  let pt := Json.get_opt entry (prop "pourType") in
  let vs := Json.get_opt entry (prop "valveStatus") in
  JStage.pourType st = (if Json.one_of pour_types pt then pt else Json.Str (utf16 "circle"))
  /\ JStage.valveStatus st = (if Json.one_of valve_states vs then vs else Json.Str [])
  /\ In (JStage.pourType st) (map Json.Str pour_types)
  /\ In (JStage.valveStatus st) (map Json.Str (valve_states ++ [[]])).
Proof.
  unfold normalize_stage. intro H. unbind H.
  injection H as <-. cbn [JStage.pourType JStage.valveStatus].
  unfold Json.get_opt. rewrite E, E0. cbv zeta.
  assert (Hp : (if negb (Json.one_of pour_types (Json.or v (Json.Str (utf16 "circle"))))
                then (if Json.one_of [utf16 "spiral"] (Json.or v (Json.Str (utf16 "circle")))
                      then Json.Str (utf16 "circle") else Json.Str (utf16 "circle"))
                else Json.or v (Json.Str (utf16 "circle")))
               = (if Json.one_of pour_types v then v else Json.Str (utf16 "circle"))).
  { unfold Json.or. destruct (Json.one_of pour_types v) eqn:Ev.
    - rewrite (one_of_truthy pour_types v eq_refl Ev), Ev. reflexivity.
    - destruct (Json.truthy v).
      + rewrite Ev. cbn [negb]. destruct (Json.one_of [utf16 "spiral"] v); reflexivity.
      + reflexivity. }
  assert (Hv : (if Json.truthy (Json.or v0 (Json.Str []))
                   && negb (Json.one_of valve_states (Json.or v0 (Json.Str [])))
                then Json.Str [] else Json.or v0 (Json.Str []))
               = (if Json.one_of valve_states v0 then v0 else Json.Str [])).
  { unfold Json.or. destruct (Json.one_of valve_states v0) eqn:Ev.
    - rewrite (one_of_truthy valve_states v0 eq_refl Ev), Ev.
      rewrite andb_false_r. reflexivity.
    - destruct (Json.truthy v0) eqn:Et.
      + rewrite Et, Ev. reflexivity.
      + reflexivity. }
  rewrite Hp, Hv. repeat split.
  - destruct (Json.one_of pour_types v) eqn:Ev.
    + now apply one_of_In.
    + simpl. auto.
  - destruct (Json.one_of valve_states v0) eqn:Ev.
    + rewrite map_app. apply in_or_app. left. now apply one_of_In.
    + simpl. auto.
Qed.

Lemma mapM_Forall2 {A B : Type} (f : A -> option B) (l : list A) (l' : list B) :
  mapM f l = Some l' -> Forall2 (fun a b => f a = Some b) l l'.
Proof.
  revert l'. induction l as [|a l IH]; simpl; intros l' H.
  - injection H as <-. constructor.
  - unbind H. injection H as <-. constructor; auto.
Qed.

Lemma Forall2_Forall_r {A B : Type} (R : A -> B -> Prop) (P : B -> Prop) l l' :
  Forall2 R l l' -> (forall a b, R a b -> P b) -> Forall P l'.
Proof. intros H HP. induction H; constructor; eauto. Qed.

Lemma mapM_none {A B : Type} (f : A -> option B) (l : list A) :
  mapM f l = None <-> exists a, In a l /\ f a = None.
Proof.
  induction l as [|a l IH]; simpl.
  - split; [discriminate | intros (a & [] & _)].
  - unfold bind at 1. destruct (f a) as [b|] eqn:Ea.
    + unfold bind. destruct (mapM f l) as [bs|] eqn:El.
      * split; [discriminate|]. intros (x & [<- | Hx] & Hn); [congruence|].
        assert (Some bs = None) by (apply IH; eauto). discriminate.
      * split; [|reflexivity]. intros _.
        destruct IH as [IH _]. destruct (IH eq_refl) as (x & Hx & Hn). eauto.
    + split; [|reflexivity]. intros _. eauto.
Qed.

Section RuntimeFacts.
Variable ToString : Json.value -> option jsstring.

Lemma method_of_parsed_some (now : Z) (random36 : jsstring) (d : Json.value)
      (m : JMethod.t) :
  method_of_parsed ToString now random36 d = Some m ->
  let params := Json.get_opt d (prop "params") in
  JMethod.id m = fresh_id now random36
  /\ JParams.coffee (JMethod.params m) = param_or params "coffee" "15g"
  /\ JParams.water (JMethod.params m) = param_or params "water" "225g"
  /\ JParams.ratio (JMethod.params m) = param_or params "ratio" "1:15"
  /\ JParams.grindSize (JMethod.params m) = param_or params "grindSize" "中细"
  /\ JParams.temp (JMethod.params m) = param_or params "temp" "92°C"
  /\ exists items,
      stage_entries d = Json.Arr items
      /\ Forall2 (fun entry st => normalize_stage entry = Some st)
           items (JParams.stages (JMethod.params m)).
Proof.
  unfold method_of_parsed. intro H. cbv zeta. unfold stage_entries.
  destruct (Json.get d (prop "method")) as [method|] eqn:Em; [|discriminate H].
  destruct (Json.get d (prop "equipment")) as [equipment|] eqn:Ee; [|discriminate H].
  cbn [bind] in H.
  destruct (negb (Json.truthy method) && negb (Json.truthy equipment)); [discriminate H|].
  unfold bind at 1 in H.
  destruct (if Json.truthy method then Some method else _) as [name|]; [|discriminate H].
  destruct (Json.get d (prop "params")) as [params|] eqn:Ep; [|discriminate H].
  cbn [bind] in H. cbv zeta in H. unfold bind in H.
  destruct (Json.get_opt params (prop "stages")) as [| | | | |items|] eqn:Es;
    try discriminate H.
  destruct (mapM normalize_stage items) as [stages|] eqn:Emap; [|discriminate H].
  destruct stages as [|st stages]; [discriminate H|].
  assert (Hp : Json.get_opt d (prop "params") = params)
    by (unfold Json.get_opt; now rewrite Ep).
  rewrite Hp. inversion H; subst m; clear H. cbn.
  repeat split; try reflexivity.
  exists items. split; [exact Es|]. now apply mapM_Forall2.
Qed.

(** When the import fails. *)
Lemma method_of_parsed_none (now : Z) (random36 : jsstring) (d : Json.value) :
  method_of_parsed ToString now random36 d = None <->
  (d = Json.Null \/ d = Json.Undefined)
  \/ (Json.truthy (Json.get_opt d (prop "method")) = false
      /\ Json.truthy (Json.get_opt d (prop "equipment")) = false)
  \/ (Json.truthy (Json.get_opt d (prop "method")) = false
      /\ ToString (Json.get_opt d (prop "equipment")) = None)
  \/ (forall items, stage_entries d <> Json.Arr items)
  \/ stage_entries d = Json.Arr []
  \/ (exists items, stage_entries d = Json.Arr items
                    /\ (In Json.Null items \/ In Json.Undefined items)).
Proof.
  assert (Hget : forall key, Json.get d key = None \/
                             Json.get d key = Some (Json.get_opt d key)).
  { intro key. unfold Json.get_opt. destruct (Json.get d key); auto. }
  assert (Hnull : forall key, Json.get d key = None <-> d = Json.Null \/ d = Json.Undefined).
  { intro key. destruct d; simpl; split; intro H; try discriminate; auto;
      destruct H; discriminate. }
  unfold method_of_parsed, stage_entries.
  destruct (Hget (prop "method")) as [E|E].
  { rewrite E. cbn [bind]. split; [intros _; left; now apply (Hnull (prop "method")) | reflexivity]. }
  assert (Hd : ~ (d = Json.Null \/ d = Json.Undefined)).
  { intro H. apply (Hnull (prop "method")) in H. congruence. }
  rewrite E. cbn [bind].
  destruct (Hget (prop "equipment")) as [E1|E1]; [apply Hnull in E1; tauto|].
  destruct (Hget (prop "params")) as [E2|E2]; [apply Hnull in E2; tauto|].
  rewrite E1. cbn [bind].
  set (method := Json.get_opt d (prop "method")) in *.
  set (equipment := Json.get_opt d (prop "equipment")) in *.
  set (params := Json.get_opt d (prop "params")) in *.
  destruct (Json.truthy method) eqn:Tm; cbn [negb andb].
  - cbn [bind]. rewrite E2. cbn [bind]. cbv zeta.
    destruct (Json.get_opt params (prop "stages")) as [| | | | |items|] eqn:Es;
      cbn [bind];
      try (split; [intros _; do 3 right; left; intros items; discriminate | reflexivity]).
    destruct (mapM normalize_stage items) as [stages|] eqn:Emap; cbn [bind].
    + destruct stages as [|st stages].
      * apply mapM_Forall2 in Emap. inversion Emap; subst.
        split; [intros _; do 4 right; left; reflexivity | reflexivity].
      * split; [discriminate|].
        intros [H|[[H _]|[[H _]|[H|[H|(items' & H & Hin)]]]]]; try tauto; try discriminate.
        -- exfalso. now apply (H items).
        -- injection H as ->. apply mapM_Forall2 in Emap. inversion Emap.
        -- injection H as <-.
           assert (Hn : mapM normalize_stage items = None).
           { apply mapM_none. destruct Hin as [Hin|Hin]; eexists; (split; [exact Hin|]);
               reflexivity. }
           congruence.
    + split; [|reflexivity]. intros _. do 5 right. exists items. split; [reflexivity|].
      apply mapM_none in Emap as (a & Ha & Hn). apply normalize_stage_none in Hn.
      destruct Hn; subst a; auto.
  - destruct (Json.truthy equipment) eqn:Te; cbn [negb andb].
    + unfold bind at 1. destruct (ToString equipment) as [s|] eqn:Ts.
      * cbn [bind]. rewrite E2. cbn [bind]. cbv zeta.
        destruct (Json.get_opt params (prop "stages")) as [| | | | |items|] eqn:Es;
          cbn [bind];
          try (split; [intros _; do 3 right; left; intros items; discriminate | reflexivity]).
        destruct (mapM normalize_stage items) as [stages|] eqn:Emap; cbn [bind].
        -- destruct stages as [|st stages].
           ++ apply mapM_Forall2 in Emap. inversion Emap; subst.
              split; [intros _; do 4 right; left; reflexivity | reflexivity].
           ++ split; [discriminate|].
              intros [H|[[_ H]|[[_ H]|[H|[H|(items' & H & Hin)]]]]];
                try tauto; try discriminate.
              ** exfalso. now apply (H items).
              ** injection H as ->. apply mapM_Forall2 in Emap. inversion Emap.
              ** injection H as <-.
                 assert (Hn : mapM normalize_stage items = None).
                 { apply mapM_none.
                   destruct Hin as [Hin|Hin]; eexists; (split; [exact Hin|]); reflexivity. }
                 congruence.
        -- split; [|reflexivity]. intros _. do 5 right. exists items.
           split; [reflexivity|].
           apply mapM_none in Emap as (a & Ha & Hn). apply normalize_stage_none in Hn.
           destruct Hn; subst a; auto.
      * cbn [bind]. split; [|reflexivity]. intros _. right. right. left. auto.
    + split; [|reflexivity]. intros _. right. left. auto.
Qed.

End RuntimeFacts.

(** ** The matcher *)

Lemma strip_app (l s s' : jsstring) : strip l s = Some s' <-> s = l ++ s'.
Proof.
  revert s. induction l as [|x l IH]; intros s; simpl.
  - split; congruence.
  - destruct s as [|y s]; [split; discriminate|].
    destruct (N.eqb_spec x y) as [->|Hxy].
    + rewrite IH. split; congruence.
    + split; [discriminate | congruence].
Qed.

Lemma startsWith_strip (l s : jsstring) :
  startsWith l s = false -> strip l s = None.
Proof.
  revert s. induction l as [|x l IH]; intros s; simpl; [discriminate|].
  destruct s as [|y s]; [reflexivity|].
  destruct (N.eqb x y); simpl; [apply IH | reflexivity].
Qed.

Lemma startsWith_app (l s : jsstring) : startsWith l (l ++ s) = true.
Proof. induction l as [|x l IH]; simpl; [reflexivity|]. now rewrite N.eqb_refl. Qed.

Lemma startsWith_inv (l s : jsstring) :
  startsWith l s = true -> exists s', s = l ++ s'.
Proof.
  revert s. induction l as [|x l IH]; intros s; simpl.
  - eauto.
  - destruct s as [|y s]; [discriminate|]. intro H.
    apply andb_true_iff in H as [Hx Hs]. apply N.eqb_eq in Hx. subst y.
    destruct (IH s Hs) as (s' & ->). eauto.
Qed.

Lemma suffix_refl (s : jsstring) : suffix s s.
Proof. now exists []. Qed.

Lemma suffix_cons (c : char) (t s : jsstring) : suffix t s -> suffix t (c :: s).
Proof. intros (p & ->). now exists (c :: p). Qed.

Lemma suffix_trans (a b c : jsstring) : suffix a b -> suffix b c -> suffix a c.
Proof. intros (p & ->) (q & ->). exists (q ++ p). now rewrite app_assoc. Qed.

Section MatcherFacts.
Variable R : Type.

Lemma star_greedy_suffix p (k : jsstring -> option R) s x :
  star_greedy p k s = Some x -> exists t, suffix t s /\ k t = Some x.
Proof.
  induction s as [|c s IH]; simpl; intro H.
  - exists []. split; [apply suffix_refl | exact H].
  - destruct (p c).
    + destruct (star_greedy p k s) as [y|] eqn:E.
      * injection H as ->. destruct (IH eq_refl) as (t & Ht & Hk).
        exists t. split; [now apply suffix_cons | exact Hk].
      * exists (c :: s). split; [apply suffix_refl | exact H].
    + exists (c :: s). split; [apply suffix_refl | exact H].
Qed.

Lemma star_lazy_suffix p (k : jsstring -> option R) s x :
  star_lazy p k s = Some x -> exists t, suffix t s /\ k t = Some x.
Proof.
  induction s as [|c s IH]; simpl; intro H.
  - destruct (k []) eqn:E; [|discriminate H].
    exists []. split; [apply suffix_refl | congruence].
  - destruct (k (c :: s)) eqn:E.
    + exists (c :: s). split; [apply suffix_refl | congruence].
    + destruct (p c); [|discriminate H].
      destruct (IH H) as (t & Ht & Hk). exists t. split; [now apply suffix_cons | exact Hk].
Qed.

(** A match that succeeds has called its continuation on a suffix of the
    input. *)
Lemma rmatch_suffix (r : regex) :
  forall (k : jsstring -> captures -> option R) s cs x,
    rmatch r k s cs = Some x ->
    exists t cs', suffix t s /\ k t cs' = Some x.
Proof.
  induction r as [l|p|p|p|a IHa b IHb|a IHa b IHb|i a IHa|]; intros k s cs x; simpl; intro H.
  - destruct (strip l s) as [t|] eqn:E; [|discriminate H].
    apply strip_app in E. exists t, cs. split; [now exists l | exact H].
  - destruct s as [|c s]; [discriminate H|]. destruct (p c); [|discriminate H].
    exists s, cs. split; [now exists [c] | exact H].
  - apply star_greedy_suffix in H as (t & Ht & Hk). eauto.
  - apply star_lazy_suffix in H as (t & Ht & Hk). eauto.
  - apply IHa in H as (t & cs1 & Ht & H). apply IHb in H as (u & cs2 & Hu & H).
    exists u, cs2. split; [exact (suffix_trans Hu Ht) | exact H].
  - destruct (rmatch a k s cs) as [y|] eqn:E.
    + injection H as ->. now apply IHa in E.
    + now apply IHb in H.
  - apply IHa in H as (t & cs1 & Ht & H). eauto.
  - destruct s; [|discriminate H]. exists [], cs. split; [apply suffix_refl | exact H].
Qed.

(** The part of a pattern behind a sequence point is matched on a suffix. *)
Lemma rmatch_seq_suffix (a b : regex) (k : jsstring -> captures -> option R) s cs x :
  rmatch (a +> b) k s cs = Some x ->
  exists t cs', suffix t s /\ rmatch b k t cs' = Some x.
Proof. simpl. apply rmatch_suffix. Qed.

Lemma rmatch_lit_start (l : jsstring) (b : regex) (k : jsstring -> captures -> option R)
      s cs :
  startsWith l s = false -> rmatch (Lit l +> b) k s cs = None.
Proof. intro H. simpl. now rewrite (startsWith_strip _ _ H). Qed.

End MatcherFacts.

Lemma exec_suffix (r : regex) (s : jsstring) (m : result) :
  exec r s = Some m -> exists t, suffix t s /\ match_here r t = Some m.
Proof.
  induction s as [|c s IH]; simpl; intro H.
  - destruct (match_here r []) eqn:E; [|discriminate H].
    exists []. split; [apply suffix_refl | congruence].
  - destruct (match_here r (c :: s)) eqn:E.
    + exists (c :: s). split; [apply suffix_refl | congruence].
    + destruct (IH H) as (t & Ht & Hm). exists t. split; [now apply suffix_cons | exact Hm].
Qed.

Lemma exec_none (r : regex) (s : jsstring) :
  (forall t, suffix t s -> match_here r t = None) -> exec r s = None.
Proof.
  induction s as [|c s IH]; intro H; simpl.
  - now rewrite (H [] (suffix_refl _)).
  - rewrite (H (c :: s) (suffix_refl _)). apply IH. intros t Ht. apply H.
    now apply suffix_cons.
Qed.

Lemma indexOf_eq (l s : jsstring) :
  indexOf l s =
  if startsWith l s then Some 0
  else match s with
       | [] => None
       | _ :: s' => option_map S (indexOf l s')
       end.
Proof. destruct s; reflexivity. Qed.

Lemma indexOf_none_suffix (l s t : jsstring) :
  indexOf l s = None -> suffix t s -> startsWith l t = false.
Proof.
  intros H (p & ->). induction p as [|c p IH]; rewrite indexOf_eq in H.
  - simpl in H. destruct (startsWith l t); [discriminate H | reflexivity].
  - change ((c :: p) ++ t) with (c :: p ++ t) in H.
    destruct (startsWith l (c :: p ++ t)); [discriminate H|].
    apply IH. now destruct (indexOf l (p ++ t)).
Qed.

(** A pattern that starts with a literal finds nothing in a text that does
    not hold the literal. *)
Lemma exec_lit_absent (l : jsstring) (b : regex) (text : jsstring) :
  includes l text = false -> exec (Lit l +> b) text = None.
Proof.
  unfold includes. intro H. destruct (indexOf l text) eqn:E; [discriminate H|].
  apply exec_none. intros t Ht. unfold match_here.
  apply rmatch_lit_start. exact (indexOf_none_suffix _ E Ht).
Qed.

Lemma capture1_lit_absent (l : jsstring) (b : regex) (text : jsstring) :
  includes l text = false -> capture1 (Lit l +> b) text = None.
Proof. intro H. unfold capture1. now rewrite exec_lit_absent. Qed.

Lemma includes_app (l a b : jsstring) : includes l (a ++ l ++ b) = true.
Proof.
  unfold includes.
  assert (H : indexOf l (a ++ l ++ b) <> None).
  { induction a as [|c a IH]; rewrite indexOf_eq.
    - simpl. rewrite startsWith_app. discriminate.
    - change ((c :: a) ++ l ++ b) with (c :: a ++ l ++ b).
      destruct (startsWith l (c :: a ++ l ++ b)); [discriminate|].
      destruct (indexOf l (a ++ l ++ b)); [simpl; discriminate | contradiction]. }
  destruct (indexOf l (a ++ l ++ b)); [reflexivity | contradiction].
Qed.

Lemma firstn_app_length (q t : jsstring) :
  firstn (length (q ++ t) - length t) (q ++ t) = q.
Proof.
  rewrite length_app. replace (length q + length t - length t) with (length q) by lia.
  rewrite firstn_app, Nat.sub_diag, firstn_all. simpl. apply app_nil_r.
Qed.

(** The scan never fills [detail]: the test for an indented next line is
    made on the trimmed line, which starts with no blank. *)
Lemma parseMethodText_detail_empty (now : Z) (text : jsstring) (st : Stage.t) :
  In st (Params.stages (Method.params (parseMethodText now text))) ->
  Stage.detail st = [].
Proof.
  unfold parseMethodText. cbn [Method.params Params.stages].
  destruct (includes lbl_steps text); [|intros []].
  intro H. apply scan_stages_origin in H as (line & m & next & _ & _ & ->).
  apply stage_of_no_detail.
Qed.

Lemma first_route_at (text : jsstring) (before after : list (jsstring * extracted))
      (mark : jsstring) (r : extracted) :
  Forall (fun e => includes (fst e) text = false) before ->
  includes mark text = true ->
  first_route text (before ++ (mark, r) :: after) = r.
Proof.
  intros Hb Hm. induction Hb as [|[k v] before Hk _ IH]; simpl.
  - now rewrite Hm.
  - simpl in Hk. now rewrite Hk.
Qed.

Lemma first_route_none (text : jsstring) (table : list (jsstring * extracted)) :
  Forall (fun e => includes (fst e) text = false) table -> first_route text table = null.
Proof.
  intro H. induction H as [|[k v] table Hk _ IH]; simpl; [reflexivity|].
  simpl in Hk. now rewrite Hk.
Qed.

(** ** Finding a labelled line *)

Lemma star_greedy_eq (R : Type) p (k : jsstring -> option R) s :
  star_greedy p k s =
  match s with
  | c :: s' =>
      if p c then match star_greedy p k s' with Some r => Some r | None => k s end
      else k s
  | [] => k s
  end.
Proof. destruct s; reflexivity. Qed.

Lemma star_lazy_eq (R : Type) p (k : jsstring -> option R) s :
  star_lazy p k s =
  match k s with
  | Some r => Some r
  | None =>
      match s with
      | c :: s' => if p c then star_lazy p k s' else None
      | [] => None
      end
  end.
Proof. destruct s; reflexivity. Qed.

Lemma exec_eq (r : regex) (s : jsstring) :
  exec r s =
  match match_here r s with
  | Some m => Some m
  | None => match s with [] => None | _ :: s' => exec r s' end
  end.
Proof. destruct s; reflexivity. Qed.

(** A greedy star over a run of the class stops where the class stops, when
    the rest of the pattern matches there. *)
Lemma star_greedy_run (R : Type) p (k : jsstring -> option R) ws rest x :
  forallb p ws = true ->
  match rest with [] => True | c :: _ => p c = false end ->
  k rest = Some x ->
  star_greedy p k (ws ++ rest) = Some x.
Proof.
  intros Hws Hrest Hk. induction ws as [|w ws IH]; simpl in *.
  - rewrite star_greedy_eq. destruct rest as [|c rest]; [exact Hk|]. now rewrite Hrest.
  - apply andb_true_iff in Hws as [Hw Hws]. rewrite Hw, (IH Hws). reflexivity.
Qed.

(** A lazy star takes the whole run when the rest of the pattern matches
    nowhere inside it. *)
Lemma star_lazy_run (R : Type) p (k : jsstring -> option R) v rest x :
  forallb p v = true ->
  (forall v1 v2, v = v1 ++ v2 -> v2 <> [] -> k (v2 ++ rest) = None) ->
  k rest = Some x ->
  star_lazy p k (v ++ rest) = Some x.
Proof.
  intros Hv Hin Hk. induction v as [|c v IH].
  - simpl. rewrite star_lazy_eq. now rewrite Hk.
  - simpl in Hv. apply andb_true_iff in Hv as [Hc Hv].
    change ((c :: v) ++ rest) with (c :: v ++ rest). rewrite star_lazy_eq.
    pose proof (Hin [] (c :: v) eq_refl ltac:(discriminate)) as H0.
    change ((c :: v) ++ rest) with (c :: v ++ rest) in H0. rewrite H0, Hc.
    apply IH; [exact Hv|]. intros v1 v2 -> Hne. apply (Hin (c :: v1) v2); [reflexivity | exact Hne].
Qed.

Lemma strip_self (l s : jsstring) : strip l (l ++ s) = Some s.
Proof. now apply strip_app. Qed.

(** The pattern of a labelled line, tried where the label stands: blanks,
    then a value [v] that starts with no blank and holds no line
    terminator, then a line feed.  The capture is [v]. *)
Lemma re_line_here (label ws v post : jsstring) :
  forallb is_space ws = true ->
  forallb is_dot v = true ->
  match v with [] => False | c :: _ => is_space c = false end ->
  exists m, match_here (re_line label) (label ++ ws ++ v ++ LF ++ post) = Some m
            /\ group 1 (caps m) = v.
Proof.
  intros Hws Hv Hhead. unfold match_here, re_line, Eol.
  cbn [rmatch]. rewrite strip_self.
  eexists. split.
  - apply star_greedy_run; [exact Hws | |].
    + destruct v as [|c v]; [contradiction | exact Hhead].
    + cbv beta. apply star_lazy_run; [exact Hv | |].
      * intros v1 v2 -> Hne. destruct v2 as [|c v2]; [congruence|].
        rewrite forallb_app in Hv. apply andb_true_iff in Hv as [_ Hv]. simpl in Hv.
        apply andb_true_iff in Hv as [Hc _].
        change ((c :: v2) ++ LF ++ post) with (c :: v2 ++ LF ++ post).
        unfold LF at 1. cbn [strip].
        destruct (N.eqb_spec 10 c) as [<-|_]; [discriminate Hc | reflexivity].
      * cbv beta. rewrite strip_self. reflexivity.
  - cbn [caps group Nat.eqb]. apply firstn_app_length.
Qed.

(** A code unit that is not the first of the literal is skipped. *)
Lemma exec_skip_char (x c : char) (l : jsstring) (b : regex) (s : jsstring) :
  N.eqb x c = false ->
  exec (Lit (x :: l) +> b) (c :: s) = exec (Lit (x :: l) +> b) s.
Proof.
  intro H. rewrite exec_eq. unfold match_here. cbn [rmatch strip]. now rewrite H.
Qed.

Lemma startsWith_sep (l a : jsstring) (c : char) (s : jsstring) :
  ~ In c l -> startsWith l (a ++ c :: s) = true -> startsWith l a = true.
Proof.
  revert a. induction l as [|x l IH]; intros a Hc H; [reflexivity|].
  destruct a as [|y a]; simpl in *.
  - apply andb_true_iff in H as [Hx _]. apply N.eqb_eq in Hx. subst c. tauto.
  - apply andb_true_iff in H as [Hx H]. rewrite Hx. simpl. apply IH; [tauto | exact H].
Qed.

(** A stretch of text that does not hold the literal, closed by a code unit
    that is not in the literal, is skipped. *)
Lemma exec_skip_absent (l : jsstring) (b : regex) (a : jsstring) (c : char) (s : jsstring) :
  includes l a = false -> ~ In c l ->
  exec (Lit l +> b) (a ++ c :: s) = exec (Lit l +> b) (c :: s).
Proof.
  unfold includes. intros Ha Hc. induction a as [|y a IH]; [reflexivity|].
  rewrite indexOf_eq in Ha.
  destruct (startsWith l (y :: a)) eqn:Es; [discriminate Ha|].
  change ((y :: a) ++ c :: s) with (y :: a ++ c :: s).
  rewrite exec_eq. unfold match_here. rewrite rmatch_lit_start.
  - apply IH. now destruct (indexOf l a).
  - destruct (startsWith l (y :: a ++ c :: s)) eqn:E; [|reflexivity].
    apply (startsWith_sep l (y :: a) c s Hc) in E. congruence.
Qed.

Lemma exec_here (r : regex) (s : jsstring) (m : result) :
  match_here r s = Some m -> exec r s = Some m.
Proof. intro H. rewrite exec_eq. now rewrite H. Qed.


Lemma capture1_of_exec (r : regex) (text : jsstring) (m : result) (v : jsstring) :
  exec r text = Some m -> group 1 (caps m) = v -> nonempty v = true ->
  capture1 r text = Some v.
Proof. intros H <- Hv. unfold capture1. now rewrite H, Hv. Qed.

(** A stretch of text that does not hold the literal is skipped when the
    literal itself stands behind it, provided the first code unit of the
    literal does not come back inside the literal. *)
Lemma exec_skip_to_literal (x : char) (l : jsstring) (b : regex) (a s : jsstring) :
  includes (x :: l) a = false -> ~ In x l ->
  exec (Lit (x :: l) +> b) (a ++ (x :: l) ++ s) = exec (Lit (x :: l) +> b) ((x :: l) ++ s).
Proof.
  unfold includes. intros Ha Hx. induction a as [|y a IH]; [reflexivity|].
  rewrite indexOf_eq in Ha.
  destruct (startsWith (x :: l) (y :: a)) eqn:Es; [discriminate Ha|].
  change ((y :: a) ++ (x :: l) ++ s) with (y :: a ++ (x :: l) ++ s).
  rewrite exec_eq. unfold match_here. rewrite rmatch_lit_start.
  - apply IH. now destruct (indexOf (x :: l) a).
  - cbn [startsWith] in *. destruct (N.eqb x y); [|reflexivity]. cbn [andb] in *.
    destruct (startsWith l (a ++ (x :: l) ++ s)) eqn:E; [|reflexivity].
    change (a ++ (x :: l) ++ s) with (a ++ x :: (l ++ s)) in E.
    apply (startsWith_sep l a x (l ++ s) Hx) in E. congruence.
Qed.

(** A labelled line behind a text that does not hold the label, for a
    label whose first code unit does not come back inside it. *)
Lemma capture1_labelled (x : char) (l pre ws v post : jsstring) :
  includes (x :: l) pre = false -> ~ In x l ->
  forallb is_space ws = true ->
  forallb is_dot v = true ->
  match v with [] => False | c :: _ => is_space c = false end ->
  capture1 (re_line (x :: l)) (pre ++ (x :: l) ++ ws ++ v ++ LF ++ post) = Some v.
Proof.
  intros Hpre Hx Hws Hv Hhead.
  destruct (@re_line_here (x :: l) ws v post Hws Hv Hhead) as (m & Hm & Hg).
  apply capture1_of_exec with (m := m); [|exact Hg|now destruct v].
  unfold re_line in *. rewrite exec_skip_to_literal by assumption.
  now apply exec_here.
Qed.

(** The coffee line of a formatted method is the first place where its
    label stands, when the name of the method does not hold the label:
    whatever follows the line, the pattern captures the value of the line. *)
Lemma coffee_line_first (name v rest : jsstring) :
  includes lbl_coffee name = false ->
  forallb is_dot v = true ->
  match v with [] => False | c :: _ => is_space c = false end ->
  capture1 (re_line lbl_coffee)
    (head_method ++ name ++ LF ++ LF ++ lbl_coffee ++ SP ++ v ++ LF ++ rest) = Some v.
Proof.
  intros Hname Hv Hhead.
  destruct (@re_line_here lbl_coffee SP v rest eq_refl Hv Hhead) as (r & Hr & Hg).
  apply capture1_of_exec with (m := r); [|exact Hg|now destruct v].
  unfold re_line in *. unfold head_method, lbl_coffee in *. cbn [app].
  rewrite !exec_skip_char by reflexivity.
  unfold LF at 1. cbn [app].
  rewrite exec_skip_absent.
  - rewrite exec_skip_char by reflexivity. unfold LF at 1. cbn [app].
    rewrite exec_skip_char by reflexivity. now apply exec_here.
  - exact Hname.
  - simpl. intros [H|[H|[H|[H|[H|[]]]]]]; discriminate H.
Qed.

(** The tag pattern finds the first tag of a text. *)
Lemma re_method_id_found (pre tok post : jsstring) :
  includes tag_method_id pre = false ->
  tok <> [] -> forallb is_id_char tok = true ->
  capture1 re_method_id (pre ++ tag_method_id ++ utf16 "method-" ++ tok ++ utf16 "@" ++ post)
  = Some (utf16 "method-" ++ tok).
Proof.
  intros Hpre Hne Htok. destruct tok as [|c tok]; [congruence|].
  cbn [forallb] in Htok. apply andb_true_iff in Htok as [Hc Htok].
  apply capture1_of_exec
    with (m := mkResult (tag_method_id ++ utf16 "method-" ++ (c :: tok) ++ utf16 "@")
                 [(1, utf16 "method-" ++ c :: tok)] post); [|reflexivity|reflexivity].
  unfold re_method_id, tag_method_id in *.
  rewrite exec_skip_to_literal; [|exact Hpre|].
  - apply exec_here. unfold match_here, Plus. cbn [rmatch]. rewrite strip_self.
    change (utf16 "method-" ++ (c :: tok) ++ utf16 "@" ++ post)
      with (utf16 "method-" ++ c :: tok ++ utf16 "@" ++ post).
    rewrite strip_self. rewrite Hc.
    erewrite star_greedy_run; [reflexivity | exact Htok | reflexivity |].
    change (utf16 "@" ++ post) with (utf16 "@" ++ post). rewrite strip_self.
    f_equal. f_equal.
    + replace (_ ++ utf16 "method-" ++ c :: tok ++ utf16 "@" ++ post)
        with ((utf16 "@METHOD_ID:" ++ utf16 "method-" ++ (c :: tok) ++ utf16 "@") ++ post)
        by (now rewrite <- !app_assoc).
      rewrite firstn_app_length. reflexivity.
    + f_equal. f_equal.
      replace (utf16 "method-" ++ c :: tok ++ utf16 "@" ++ post)
        with ((utf16 "method-" ++ c :: tok) ++ utf16 "@" ++ post)
        by (now rewrite <- !app_assoc).
      apply firstn_app_length.
  - simpl. intros H. repeat (destruct H as [H|H]; [discriminate H|]). exact H.
Qed.

(** ** Blend components *)

Lemma digits_paren_free (u : Decimal.uint) : paren_free (digits u) = true.
Proof. induction u; simpl; auto. Qed.

Lemma dec_paren_free (z : Z) : paren_free (dec z) = true.
Proof. unfold dec. destruct (Z.to_int z); simpl; apply digits_paren_free. Qed.

Lemma startsWith_skipn (l s : jsstring) :
  startsWith l s = true -> s = l ++ skipn (length l) s.
Proof.
  intro H. apply startsWith_inv in H as (s' & ->).
  now rewrite skipn_app, skipn_all, Nat.sub_diag.
Qed.

Lemma indexOf_some (l s : jsstring) (i : nat) :
  indexOf l s = Some i -> s = firstn i s ++ l ++ skipn (i + length l) s.
Proof.
  revert i. induction s as [|c s IH]; intros i; rewrite indexOf_eq.
  - destruct (startsWith l []) eqn:E; [|discriminate].
    intro H. injection H as <-. exact (startsWith_skipn _ _ E).
  - destruct (startsWith l (c :: s)) eqn:E.
    + intro H. injection H as <-. exact (startsWith_skipn _ _ E).
    + destruct (indexOf l s) as [j|] eqn:Ej; [|discriminate].
      simpl. intro H. injection H as <-. simpl. f_equal. now apply IH.
Qed.

Lemma split_fuel_infix (fuel : nat) (sep s x : jsstring) :
  In x (split_fuel fuel sep s) -> exists a b, s = a ++ x ++ b.
Proof.
  revert s. induction fuel as [|f IH]; intros s; simpl.
  - intros [<-|[]]. exists [], []. now rewrite app_nil_r.
  - destruct (indexOf sep s) as [i|] eqn:E.
    + pose proof (indexOf_some _ _ E) as Hs. intros [<-|H].
      * exists [], (sep ++ skipn (i + length sep) s). exact Hs.
      * destruct (IH _ H) as (a & b & Hab).
        exists (firstn i s ++ sep ++ a), b. rewrite Hs at 1. rewrite Hab.
        now rewrite <- !app_assoc.
    + intros [<-|[]]. exists [], []. now rewrite app_nil_r.
Qed.

Lemma match_all_none (r : regex) (s : jsstring) : exec r s = None -> match_all r s = [].
Proof. intro H. unfold match_all. simpl. now rewrite H. Qed.

Lemma includes_inv (l s : jsstring) :
  includes l s = true -> exists a b, s = a ++ l ++ b.
Proof.
  unfold includes. destruct (indexOf l s) as [i|] eqn:E; [|discriminate].
  intros _. apply indexOf_some in E. eauto.
Qed.

Lemma includes_app_r (l a b : jsstring) :
  includes l b = true -> includes l (a ++ b) = true.
Proof.
  intro H. apply includes_inv in H as (b1 & b2 & ->).
  rewrite app_assoc. apply includes_app.
Qed.

Lemma includes_app_l (l a b : jsstring) :
  includes l a = true -> includes l (a ++ b) = true.
Proof.
  intro H. apply includes_inv in H as (a1 & a2 & ->).
  rewrite <- !app_assoc. apply includes_app.
Qed.

Lemma dropWhile_app (p : char -> bool) (s t : jsstring) :
  dropWhile p (s ++ t) =
  match dropWhile p s with
  | [] => dropWhile p t
  | c :: d => (c :: d) ++ t
  end.
Proof.
  induction s as [|c s IH]; cbn [app dropWhile].
  - now destruct (dropWhile p t).
  - destruct (p c); [exact IH | reflexivity].
Qed.

Lemma percent_here_app_closed (a b : jsstring) :
  closed_front b = true -> percent_here (a ++ b) = percent_here a.
Proof.
  intro Hb. destruct a as [|d a].
  - destruct b as [|c b]; [reflexivity|]. cbn [app percent_here closed_front] in *.
    unfold closes in Hb. now destruct (is_digit c).
  - cbn [app percent_here]. f_equal.
    change (d :: a ++ b) with ((d :: a) ++ b). rewrite dropWhile_app.
    destruct (dropWhile is_digit (d :: a)) as [|x r].
    + destruct b as [|c b]; [reflexivity|]. cbn [closed_front] in Hb. unfold closes in Hb.
      cbn [dropWhile]. destruct (is_digit c); [discriminate Hb|]. cbn [negb andb] in Hb.
      change (utf16 "%)") with [37%N; 41%N]. cbn [startsWith].
      rewrite N.eqb_sym. destruct (c =? 37)%N; [discriminate Hb | reflexivity].
    + change (utf16 "%)") with [37%N; 41%N]. cbn [app startsWith].
      destruct (37 =? x)%N; [|reflexivity]. cbn [andb].
      destruct r as [|z r]; [|reflexivity].
      destruct b as [|c b]; [reflexivity|]. cbn [app closed_front] in *. unfold closes in Hb.
      rewrite N.eqb_sym. destruct (c =? 41)%N; [|reflexivity].
      rewrite andb_false_r in Hb. discriminate Hb.
Qed.

(** A text in front of a code unit that cannot go on a percentage holds a
    parenthesised percentage only inside itself. *)
Lemma no_percent_app (a b : jsstring) :
  closed_front b = true -> no_percent (a ++ b) = no_percent a && no_percent b.
Proof.
  intro Hb. induction a as [|c a IH]; [reflexivity|].
  cbn [app no_percent]. rewrite IH, (percent_here_app_closed _ _ Hb).
  now rewrite andb_assoc.
Qed.

Lemma no_percent_paren_free (a b : jsstring) :
  paren_free a = true -> no_percent (a ++ b) = no_percent b.
Proof.
  induction a as [|c a IH]; [reflexivity|]. cbn [paren_free forallb app no_percent].
  intro H. apply andb_true_iff in H as [Hc Ha]. apply negb_true_iff in Hc.
  rewrite Hc. now apply IH.
Qed.

Lemma no_percent_suffix (t s : jsstring) :
  suffix t s -> no_percent s = true -> no_percent t = true.
Proof.
  intros (p & ->). induction p as [|c p IH]; [auto|]. cbn [app no_percent].
  intro H. apply andb_true_iff in H as [_ H]. now apply IH.
Qed.

Lemma startsWith_app_r (l s t : jsstring) :
  startsWith l s = true -> startsWith l (s ++ t) = true.
Proof.
  intro H. apply startsWith_inv in H as (s' & ->). rewrite <- app_assoc.
  apply startsWith_app.
Qed.

Lemma percent_here_app_l (a b : jsstring) :
  percent_here a = true -> percent_here (a ++ b) = true.
Proof.
  destruct a as [|d a]; [discriminate|]. cbn [app percent_here]. intro H.
  apply andb_true_iff in H as [Hd H]. rewrite Hd. cbn [andb].
  change (d :: a ++ b) with ((d :: a) ++ b). rewrite dropWhile_app.
  destruct (dropWhile is_digit (d :: a)) as [|x r]; [discriminate H|].
  now apply startsWith_app_r.
Qed.

Lemma no_percent_prefix (a b : jsstring) :
  no_percent (a ++ b) = true -> no_percent a = true.
Proof.
  induction a as [|c a IH]; [reflexivity|]. cbn [app no_percent]. intro H.
  apply andb_true_iff in H as [Hc H]. rewrite (IH H), andb_true_r.
  destruct (c =? 40)%N; [|reflexivity]. cbn [andb] in *.
  destruct (percent_here a) eqn:E; [|reflexivity].
  now rewrite (percent_here_app_l _ b E) in Hc.
Qed.

Lemma no_percent_infix (a x b : jsstring) :
  no_percent (a ++ x ++ b) = true -> no_percent x = true.
Proof.
  intro H. apply (no_percent_suffix (t := x ++ b)) in H; [|now exists a].
  now apply no_percent_prefix in H.
Qed.

Lemma no_percent_piece (sep s : jsstring) (i : nat) :
  no_percent s = true -> no_percent (nth i (split sep s) []) = true.
Proof.
  intro H. destruct (nth_in_or_default i (split sep s) []) as [Hin | ->]; [|reflexivity].
  apply split_fuel_infix in Hin as (a & b & Hab). rewrite Hab in H.
  exact (no_percent_infix _ _ _ H).
Qed.

(** A greedy star has consumed a run of its class when the rest of the
    pattern matches. *)
Lemma star_greedy_split (R : Type) p (k : jsstring -> option R) s x :
  star_greedy p k s = Some x ->
  exists a t, s = a ++ t /\ forallb p a = true /\ k t = Some x.
Proof.
  induction s as [|c s IH]; cbn [star_greedy]; intro H.
  - exists [], []. auto.
  - destruct (p c) eqn:Ec.
    + destruct (star_greedy p k s) as [y|] eqn:E.
      * injection H as ->. destruct (IH eq_refl) as (a & t & -> & Ha & Hk).
        exists (c :: a), t. cbn [forallb]. rewrite Ec, Ha. auto.
      * exists [], (c :: s). auto.
    + exists [], (c :: s). auto.
Qed.

Lemma dropWhile_run (p : char -> bool) (a t : jsstring) :
  forallb p a = true -> match t with [] => True | c :: _ => p c = false end ->
  dropWhile p (a ++ t) = t.
Proof.
  intros Ha Ht. induction a as [|c a IH]; cbn [app].
  - destruct t as [|c t]; [reflexivity|]. cbn [dropWhile]. now rewrite Ht.
  - cbn [forallb] in Ha. apply andb_true_iff in Ha as [Hc Ha]. cbn [dropWhile].
    rewrite Hc. now apply IH.
Qed.

(** The blend pattern matches only in a text that holds a parenthesised
    percentage. *)
Lemma re_blend_needs_percent (s : jsstring) :
  no_percent s = true -> exec re_blend s = None.
Proof.
  intro Hs. destruct (exec re_blend s) as [m|] eqn:E; [|reflexivity]. exfalso.
  apply exec_suffix in E as (t & Ht & Hm).
  unfold match_here, re_blend in Hm.
  apply rmatch_seq_suffix in Hm as (t1 & cs1 & H1 & Hm).
  apply rmatch_seq_suffix in Hm as (t2 & cs2 & H2 & Hm).
  apply rmatch_seq_suffix in Hm as (t3 & cs3 & H3 & Hm).
  apply rmatch_seq_suffix in Hm as (t4 & cs4 & H4 & Hm).
  apply rmatch_seq_suffix in Hm as (t5 & cs5 & H5 & Hm).
  assert (Hsuf : suffix t5 s).
  { repeat (eapply suffix_trans; [eassumption|]). apply suffix_refl. }
  pose proof (no_percent_suffix Hsuf Hs) as Hn.
  change (utf16 "(") with [40%N] in Hm. unfold Plus in Hm. cbn [rmatch strip] in Hm.
  destruct t5 as [|c t5]; [discriminate Hm|].
  destruct (N.eqb_spec 40 c) as [<-|]; [|discriminate Hm].
  destruct t5 as [|d t5]; [discriminate Hm|].
  destruct (is_digit d) eqn:Ed; [|discriminate Hm].
  apply star_greedy_split in Hm as (a & u & -> & Ha & Hm).
  destruct (strip (utf16 "%)") u) as [u'|] eqn:Eu; [|discriminate Hm].
  apply strip_app in Eu. subst u.
  cbn [no_percent] in Hn. apply andb_true_iff in Hn as [Hn _].
  change (40 =? 40)%N with true in Hn. cbn [andb percent_here] in Hn.
  rewrite Ed in Hn. cbn [andb] in Hn.
  change (d :: a ++ utf16 "%)" ++ u') with ((d :: a) ++ utf16 "%)" ++ u') in Hn.
  rewrite dropWhile_run in Hn.
  - rewrite startsWith_app in Hn. discriminate Hn.
  - cbn [forallb]. now rewrite Ed, Ha.
  - reflexivity.
Qed.

Lemma closed_front_app (a b : jsstring) :
  a <> [] -> closed_front (a ++ b) = closed_front a.
Proof. destruct a; [congruence | reflexivity]. Qed.

Lemma given_no_percent (o : option jsstring) :
  opt_no_percent o = true -> opt_no_percent (given o) = true.
Proof. destruct o as [s|]; simpl; [|reflexivity]. now destruct (nonempty s). Qed.

Lemma no_percent_opt_line (label : jsstring) (o : option jsstring) (tail rest : jsstring) :
  paren_free label = true -> opt_no_percent o = true ->
  paren_free tail = true -> closed_front tail = true -> tail <> [] ->
  no_percent (opt_line label o tail ++ rest) = no_percent rest.
Proof.
  intros Hl Ho Ht Hc Hne. unfold opt_line. apply given_no_percent in Ho.
  destruct (given o) as [s|]; [|reflexivity]. cbn [opt_no_percent] in Ho.
  rewrite <- !app_assoc. rewrite (no_percent_paren_free _ _ Hl).
  rewrite no_percent_app by (now rewrite closed_front_app).
  now rewrite Ho, (no_percent_paren_free _ _ Ht).
Qed.

Lemma no_percent_join (sep : jsstring) (l : list jsstring) (rest : jsstring) :
  paren_free sep = true -> closed_front sep = true -> sep <> [] ->
  forallb no_percent l = true -> closed_front rest = true ->
  no_percent (join sep l ++ rest) = no_percent rest.
Proof.
  intros Hs Hc Hne Hl Hr. induction l as [|x l IH]; [reflexivity|].
  cbn [forallb] in Hl. apply andb_true_iff in Hl as [Hx Hl].
  destruct l as [|y l].
  - cbn [join]. now rewrite (no_percent_app _ _ Hr), Hx.
  - change (join sep (x :: y :: l)) with (x ++ sep ++ join sep (y :: l)).
    rewrite <- !app_assoc. rewrite no_percent_app by (now rewrite closed_front_app).
    rewrite Hx, (no_percent_paren_free _ _ Hs). now apply IH.
Qed.

Lemma details_no_percent (comp : Blend.t) :
  component_no_percent comp = true -> forallb no_percent (details_of comp) = true.
Proof.
  unfold component_no_percent, details_of. intro H.
  apply andb_true_iff in H as [H Hv]. apply andb_true_iff in H as [Ho Hp].
  apply given_no_percent in Ho, Hp, Hv.
  destruct (given (Blend.origin comp)), (given (Blend.process comp)),
    (given (Blend.variety comp)); cbn [opt_no_percent app forallb] in *;
    rewrite ?Ho, ?Hp, ?Hv; reflexivity.
Qed.

Lemma no_percent_componentsText (comps : list Blend.t) :
  forallb component_no_percent comps = true ->
  forall index rest,
    no_percent (componentsText index comps ++ rest) = no_percent rest.
Proof.
  induction comps as [|comp comps IH]; intros H index rest; [reflexivity|].
  cbn [forallb] in H. apply andb_true_iff in H as [Hc Hcs].
  cbn [componentsText]. unfold componentText. rewrite <- !app_assoc.
  rewrite (no_percent_paren_free (utf16 "  ")) by reflexivity.
  rewrite (no_percent_paren_free (dec _)) by apply dec_paren_free.
  rewrite (no_percent_paren_free (utf16 ". ")) by reflexivity.
  rewrite (no_percent_paren_free (dec _)) by apply dec_paren_free.
  rewrite (no_percent_paren_free (utf16 "% ")) by reflexivity.
  rewrite no_percent_join;
    [ | reflexivity | reflexivity | discriminate | now apply details_no_percent
      | reflexivity ].
  rewrite (no_percent_paren_free LF) by reflexivity. now apply IH.
Qed.

Lemma no_percent_left_over (z : jsstring) : no_percent (left_over ++ z) = no_percent z.
Proof. reflexivity. Qed.

(** The text of a bean whose fields hold no parenthesised percentage holds
    none: the formatter writes one opening parenthesis of its own, in
    front of [剩余]. *)
Lemma beanToReadableText_no_percent (bean : Bean.t) :
  bean_no_percent bean = true -> no_percent (beanToReadableText bean) = true.
Proof.
  unfold bean_no_percent. intro H.
  repeat match type of H with
         | _ && _ = true => let H' := fresh "F" in apply andb_true_iff in H as [H H']
         end.
  unfold beanToReadableText.
  apply given_no_percent in F8.
  assert (Hu : no_percent unknown = true) by reflexivity.
  destruct (given (Bean.roastLevel bean)) as [level|]; cbn [opt_no_percent] in F8.
  all: destruct (Bean.flavor bean) as [[|f fs]|].
  all: destruct (Bean.blendComponents bean) as [[|c cs]|].
  all: destruct (eqb (Bean.remaining bean) (Bean.capacity bean)).
  all: repeat match goal with
      | |- no_percent (opt_line _ _ _ ++ _) = true =>
          rewrite no_percent_opt_line by (assumption || reflexivity || discriminate)
      | |- no_percent (componentsText _ _ ++ _) = true =>
          rewrite no_percent_componentsText by assumption
      | |- no_percent (join _ _ ++ _) = true =>
          rewrite no_percent_join by (assumption || reflexivity || discriminate)
      | |- no_percent (left_over ++ _) = true => rewrite no_percent_left_over
      | |- no_percent ([] ++ _) = true => rewrite app_nil_l
      | |- no_percent ((_ ++ _) ++ _) = true => rewrite <- app_assoc
      | H : no_percent ?a = true |- no_percent (?a ++ ?b) = true =>
          rewrite (no_percent_app a b) by reflexivity; rewrite H; cbn [andb]
      | |- no_percent (?a ++ ?b) = true =>
          rewrite (no_percent_paren_free a b) by (reflexivity || apply dec_paren_free)
      end.
  all: reflexivity.
Qed.

(** ** The fuel of [split] and of [match_all] is enough *)

Lemma indexOf_bound (l s : jsstring) (i : nat) :
  indexOf l s = Some i -> i + length l <= length s.
Proof.
  revert i. induction s as [|c s IH]; intros i; rewrite indexOf_eq.
  - destruct (startsWith l []) eqn:E; [|discriminate].
    intro H. injection H as <-. destruct l; [simpl; lia | discriminate E].
  - destruct (startsWith l (c :: s)) eqn:E.
    + intro H. injection H as <-. apply startsWith_inv in E as (s' & ->).
      rewrite length_app. lia.
    + destruct (indexOf l s) as [j|]; [|discriminate]. simpl.
      intro H. injection H as <-. specialize (IH j eq_refl). lia.
Qed.

Lemma split_fuel_stable (sep : jsstring) :
  sep <> [] ->
  forall n m s, length s <= n -> length s <= m ->
                split_fuel n sep s = split_fuel m sep s.
Proof.
  intros Hsep. induction n as [|n IH]; intros m s Hn Hm.
  - destruct s; [|simpl in Hn; lia]. destruct m; [reflexivity|].
    destruct sep; [congruence | reflexivity].
  - destruct m as [|m].
    + destruct s; [|simpl in Hm; lia].
      destruct sep; [congruence | reflexivity].
    + simpl. destruct (indexOf sep s) as [i|] eqn:E; [|reflexivity].
      f_equal. apply indexOf_bound in E.
      assert (0 < length sep) by (destruct sep; [congruence | simpl; lia]).
      apply IH; rewrite length_skipn; lia.
Qed.

(** More fuel than the length of the text changes nothing: [split] is the
    whole loop. *)
Lemma split_fuel_enough (sep s : jsstring) (n : nat) :
  sep <> [] -> length s <= n -> split_fuel n sep s = split sep s.
Proof. intros Hsep Hn. unfold split. now apply split_fuel_stable. Qed.

Lemma match_here_after (r : regex) (s : jsstring) (m : result) :
  match_here r s = Some m ->
  length (after m) <= length s
  /\ (whole m <> [] -> length (after m) < length s).
Proof.
  unfold match_here. intro H. apply rmatch_suffix in H as (t & cs & (p & Hs) & H).
  injection H as <-. cbn [after whole]. subst s. rewrite length_app. split; [lia|].
  intro Hw. destruct p as [|c p]; [|simpl; lia].
  exfalso. apply Hw. simpl. now rewrite Nat.sub_diag.
Qed.

Lemma exec_after (r : regex) (s : jsstring) (m : result) :
  exec r s = Some m ->
  length (after m) <= length s
  /\ (whole m <> [] -> length (after m) < length s).
Proof.
  intro H. apply exec_suffix in H as (t & (p & ->) & H).
  apply match_here_after in H as [H1 H2]. rewrite length_app. split; [lia|].
  intro Hw. specialize (H2 Hw). lia.
Qed.

Lemma match_all_fuel_stable (r : regex) :
  forall n m s, length s < n -> length s < m ->
                match_all_fuel n r s = match_all_fuel m r s.
Proof.
  induction n as [|n IH]; intros m s Hn Hm; [lia|].
  destruct m as [|m]; [lia|]. simpl.
  destruct (exec r s) as [x|] eqn:E; [|reflexivity].
  apply exec_after in E as [H1 H2]. f_equal.
  destruct (whole x) as [|w ws].
  - destruct (after x) as [|c s']; [reflexivity|]. simpl in H1. apply IH; lia.
  - assert (length (after x) < length s) by (apply H2; discriminate).
    apply IH; lia.
Qed.

Lemma match_all_fuel_enough (r : regex) (s : jsstring) (n : nat) :
  length s < n -> match_all_fuel n r s = match_all r s.
Proof. intro H. unfold match_all. apply match_all_fuel_stable; lia. Qed.

(** ** Generated identities *)

Lemma digits_inj (u v : Decimal.uint) : digits u = digits v -> u = v.
Proof.
  revert v. induction u; destruct v; simpl; intro H;
    try discriminate H; try reflexivity;
    injection H as H; f_equal; auto.
Qed.

Lemma digits_are_digits (u : Decimal.uint) : forallb is_digit (digits u) = true.
Proof. induction u; simpl; auto. Qed.

Lemma dec_inj (a b : Z) : dec a = dec b -> a = b.
Proof.
  unfold dec. intro H. rewrite <- (of_to a), <- (of_to b).
  destruct (Z.to_int a) as [u|u], (Z.to_int b) as [v|v].
  - now rewrite (digits_inj _ _ H).
  - pose proof (digits_are_digits u) as Hu. rewrite H in Hu. discriminate Hu.
  - pose proof (digits_are_digits v) as Hv. rewrite <- H in Hv. discriminate Hv.
  - injection H as H. now rewrite (digits_inj _ _ H).
Qed.

Lemma dec_nonneg (a : Z) : (0 <= a)%Z -> forallb is_digit (dec a) = true.
Proof.
  unfold dec. destruct a as [|p|p]; intro H; try apply digits_are_digits. lia.
Qed.

(** Two runs of digits closed by a hyphen at the front of equal texts are
    equal. *)
Lemma digits_then_hyphen (a b x y : jsstring) :
  forallb is_digit a = true -> forallb is_digit b = true ->
  a ++ 45%N :: x = b ++ 45%N :: y -> a = b.
Proof.
  revert b. induction a as [|c a IH]; intros [|d b] Ha Hb H; simpl in *.
  - reflexivity.
  - injection H as <- _. discriminate Hb.
  - injection H as -> _. discriminate Ha.
  - injection H as -> H. apply andb_true_iff in Ha as [_ Ha].
    apply andb_true_iff in Hb as [_ Hb]. f_equal. now apply IH with (2 := Hb).
Qed.

(** The generated ids tell the clock values apart. *)
Lemma fresh_id_clock (now1 now2 : Z) (r1 r2 : jsstring) :
  (0 <= now1)%Z -> (0 <= now2)%Z ->
  fresh_id now1 r1 = fresh_id now2 r2 -> now1 = now2.
Proof.
  unfold fresh_id. intros H1 H2 H. apply dec_inj.
  change (utf16 "-") with [45%N] in H. cbn [app] in H.
  exact (@digits_then_hyphen _ _ _ _ (@dec_nonneg _ H1) (@dec_nonneg _ H2) H).
Qed.

(** ** The leftmost block *)

Lemma indexOf_skipn (l s : jsstring) (i : nat) :
  indexOf l s = Some i -> skipn i s = l ++ skipn (i + length l) s.
Proof.
  revert i. induction s as [|c s IH]; intros i; rewrite indexOf_eq.
  - destruct (startsWith l []) eqn:E; [|discriminate].
    intro H. injection H as <-. exact (startsWith_skipn _ _ E).
  - destruct (startsWith l (c :: s)) eqn:E.
    + intro H. injection H as <-. exact (startsWith_skipn _ _ E).
    + destruct (indexOf l s) as [j|] eqn:Ej; [|discriminate].
      simpl. intro H. injection H as <-. now apply IH.
Qed.

(** A pattern that starts with a literal is first tried with a chance of
    success where the literal first stands. *)
Lemma exec_at_indexOf (l : jsstring) (b : regex) (s : jsstring) (i : nat) :
  indexOf l s = Some i -> exec (Lit l +> b) s = exec (Lit l +> b) (skipn i s).
Proof.
  revert i. induction s as [|c s IH]; intros i; rewrite indexOf_eq.
  - destruct (startsWith l []); [|discriminate]. intro H. now injection H as <-.
  - destruct (startsWith l (c :: s)) eqn:E.
    + intro H. now injection H as <-.
    + destruct (indexOf l s) as [j|] eqn:Ej; [|discriminate].
      cbn [option_map]. intro H. injection H as <-.
      rewrite (exec_eq _ (c :: s)). unfold match_here.
      rewrite rmatch_lit_start by exact E. cbn [skipn]. now apply IH.
Qed.

Lemma strip_none (l s : jsstring) : strip l s = None -> startsWith l s = false.
Proof.
  intro H. destruct (startsWith l s) eqn:E; [|reflexivity].
  apply startsWith_inv in E as (s' & ->). now rewrite strip_self in H.
Qed.

(** A lazy star over every code unit stops at the first place where the
    literal behind it stands. *)
Lemma star_lazy_any_indexOf (R : Type) (l : jsstring) (g : jsstring -> jsstring -> R)
      (s : jsstring) :
  star_lazy is_any
    (fun t => match strip l t with Some t' => Some (g t t') | None => None end) s
  = match indexOf l s with
    | Some j => Some (g (skipn j s) (skipn (j + length l) s))
    | None => None
    end.
Proof.
  induction s as [|c s IH]; rewrite star_lazy_eq, indexOf_eq.
  - destruct (strip l []) as [t'|] eqn:E.
    + pose proof E as E'. apply strip_app in E'.
      destruct l; [|discriminate E']. simpl in E'. subst t'. reflexivity.
    + now rewrite (strip_none _ _ E).
  - destruct (strip l (c :: s)) as [t'|] eqn:E.
    + pose proof E as E'. apply strip_app in E'.
      assert (Hs : startsWith l (c :: s) = true) by (rewrite E'; apply startsWith_app).
      rewrite Hs. change (skipn 0 (c :: s)) with (c :: s). cbn [Nat.add].
      f_equal. f_equal. rewrite E'.
      now rewrite skipn_app, skipn_all, Nat.sub_diag.
    + rewrite (strip_none _ _ E). change (is_any c) with true. cbv iota. rewrite IH.
      now destruct (indexOf l s).
Qed.

Lemma exec_json_block_inv (s : jsstring) (m : result) :
  exec re_json_block s = Some m ->
  exists pre body post, s = pre ++ json_open ++ body ++ json_close ++ post.
Proof.
  intro E. apply exec_suffix in E as (t & (pre & ->) & Hm).
  unfold match_here, re_json_block in Hm. cbn [rmatch] in Hm.
  destruct (strip json_open t) as [t1|] eqn:E1; [|discriminate Hm].
  apply strip_app in E1. subst t.
  apply star_lazy_suffix in Hm as (t2 & (q & ->) & Hm).
  destruct (strip json_close t2) as [t3|] eqn:E3; [|discriminate Hm].
  apply strip_app in E3. subst t2. eauto.
Qed.

Lemma skipn_app_length (A : Type) (a b : list A) (n : nat) :
  n = length a -> skipn n (a ++ b) = b.
Proof. intros ->. now rewrite skipn_app, skipn_all, Nat.sub_diag. Qed.

Lemma length_skipn_le (A : Type) (j : nat) (s : list A) :
  j <= length s -> length s - length (skipn j s) = j.
Proof. intro H. rewrite length_skipn. lia. Qed.

(** What the block pattern captures: the contents of the leftmost block,
    when they are not empty. *)
Lemma capture1_json_block (text : jsstring) :
  capture1 re_json_block text =
  match leftmost_block text with
  | Some (c :: body) => Some (c :: body)
  | _ => None
  end.
Proof.
  unfold leftmost_block. destruct (indexOf json_open text) as [i|] eqn:Ei.
  - cbv zeta. pose proof (@indexOf_skipn _ _ _ Ei) as Hs.
    set (rest := skipn (i + length json_open) text) in *.
    unfold capture1, re_json_block. rewrite (@exec_at_indexOf _ _ _ _ Ei), Hs.
    fold re_json_block.
    assert (Hhere : match_here re_json_block (json_open ++ rest)
                    = match indexOf json_close rest with
                      | Some j =>
                          Some (mkResult
                                  (firstn (length (json_open ++ rest)
                                           - length (skipn (j + length json_close) rest))
                                     (json_open ++ rest))
                                  [(1, firstn j rest)]
                                  (skipn (j + length json_close) rest))
                      | None => None
                      end).
    { unfold match_here, re_json_block. cbn [rmatch]. rewrite strip_self.
      rewrite (star_lazy_any_indexOf json_close
                 (fun t t' => mkResult
                                (firstn (length (json_open ++ rest) - length t')
                                   (json_open ++ rest))
                                [(1, firstn (length rest - length t) rest)] t')).
      destruct (indexOf json_close rest) as [j|] eqn:Ej; [|reflexivity].
      apply indexOf_bound in Ej. rewrite length_skipn_le by lia. reflexivity. }
    rewrite exec_eq, Hhere.
    destruct (indexOf json_close rest) as [j|] eqn:Ej.
    + cbn [caps group Nat.eqb]. now destruct (firstn j rest).
    + destruct (json_open ++ rest) as [|c0 s0] eqn:Es; [reflexivity|].
      destruct (exec re_json_block s0) as [m|] eqn:Em; [|reflexivity]. exfalso.
      apply exec_json_block_inv in Em as (pre & body & post & Hs0).
      assert (Hinc : includes json_close rest = true).
      { assert (E : json_open ++ rest
                    = (c0 :: pre ++ json_open ++ body) ++ json_close ++ post).
        { rewrite Es, Hs0. cbn [app]. now rewrite <- !app_assoc. }
        apply app_eq_app in E as (k & [[E1 E2] | [E1 E2]]).
        - apply (f_equal (@length _)) in E1. cbn [length] in E1.
          rewrite !length_app in E1. cbn [length] in E1. rewrite !length_app in E1. lia.
        - rewrite E2. apply includes_app. }
      unfold includes in Hinc. rewrite Ej in Hinc. discriminate Hinc.
  - apply capture1_lit_absent. unfold includes. now rewrite Ei.
Qed.

Lemma indexOf_here (l s : jsstring) : indexOf l (l ++ s) = Some 0.
Proof. rewrite indexOf_eq. now rewrite startsWith_app. Qed.

Lemma startsWith_short (y : char) (r l' s : jsstring) :
  length r < length l' -> ~ In y l' -> startsWith (r ++ [y]) (l' ++ y :: s) = false.
Proof.
  revert l'. induction r as [|c r IH]; intros [|c' l'] Hlen Hy; cbn [length] in Hlen;
    try lia; cbn [app startsWith].
  - destruct (N.eqb_spec y c') as [->|]; [|reflexivity]. exfalso. apply Hy. now left.
  - rewrite IH; [apply andb_false_r | lia |]. intro H. apply Hy. now right.
Qed.

(** A mark whose last code unit stands nowhere else in it: where the mark
    starts inside a stretch that is followed by the mark, it lies inside
    the stretch. *)
Lemma startsWith_inside (y : char) (l' a r s : jsstring) :
  ~ In y l' -> length r < length a + length l' ->
  startsWith (r ++ [y]) (a ++ l' ++ y :: s) = true -> startsWith (r ++ [y]) a = true.
Proof.
  intros Hy. revert r. induction a as [|c a IH]; intros r Hlen H.
  - cbn [app length] in *. rewrite startsWith_short in H by assumption. discriminate H.
  - destruct r as [|c0 r]; cbn [app startsWith length] in *.
    + apply andb_true_iff in H as [H _]. now rewrite H.
    + apply andb_true_iff in H as [Hc H]. rewrite Hc. cbn [andb].
      apply IH; [lia | exact H].
Qed.

Lemma indexOf_first (y : char) (l' a s : jsstring) :
  ~ In y l' -> includes (l' ++ [y]) a = false ->
  indexOf (l' ++ [y]) (a ++ (l' ++ [y]) ++ s) = Some (length a).
Proof.
  intros Hy. induction a as [|c a IH]; intro Ha.
  - change ([] ++ (l' ++ [y]) ++ s) with ((l' ++ [y]) ++ s). apply indexOf_here.
  - unfold includes in Ha. rewrite indexOf_eq in Ha.
    destruct (startsWith (l' ++ [y]) (c :: a)) eqn:Es; [discriminate Ha|].
    change ((c :: a) ++ (l' ++ [y]) ++ s) with (c :: a ++ (l' ++ [y]) ++ s).
    rewrite indexOf_eq.
    destruct (startsWith (l' ++ [y]) (c :: a ++ (l' ++ [y]) ++ s)) eqn:E.
    + exfalso. rewrite <- app_assoc in E. cbn [app] in E.
      change (c :: a ++ l' ++ y :: s) with ((c :: a) ++ l' ++ y :: s) in E.
      apply startsWith_inside in E; [congruence | exact Hy | cbn [length]; lia].
    + rewrite IH; [reflexivity|]. unfold includes. now destruct (indexOf (l' ++ [y]) a).
Qed.

(** [indexOf] gives the first place. *)
Lemma indexOf_least (l s : jsstring) (i : nat) (a b : jsstring) :
  indexOf l s = Some i -> s = a ++ l ++ b -> i <= length a.
Proof.
  revert i a. induction s as [|c s IH]; intros i a; rewrite indexOf_eq.
  - destruct (startsWith l []); [|discriminate]. intro H. injection H as <-. lia.
  - destruct (startsWith l (c :: s)) eqn:E.
    + intro H. injection H as <-. lia.
    + destruct (indexOf l s) as [j|] eqn:Ej; [|discriminate].
      cbn [option_map]. intro H. injection H as <-. intro Hs.
      destruct a as [|c' a].
      * cbn [app] in Hs. rewrite Hs, startsWith_app in E. discriminate E.
      * cbn [app] in Hs. injection Hs as _ Hs. cbn [length].
        specialize (IH j a eq_refl Hs). lia.
Qed.

Lemma indexOf_before (l s : jsstring) (i : nat) :
  l <> [] -> indexOf l s = Some i -> includes l (firstn i s) = false.
Proof.
  intros Hl Hi. destruct (includes l (firstn i s)) eqn:E; [|reflexivity]. exfalso.
  apply includes_inv in E as (a & b & Hab).
  assert (Hs : s = a ++ l ++ (b ++ skipn i s)).
  { rewrite <- (firstn_skipn i s) at 1. rewrite Hab. now rewrite <- !app_assoc. }
  pose proof (indexOf_least _ _ _ Hi Hs) as Hle.
  apply (f_equal (@length _)) in Hab. rewrite !length_app in Hab.
  pose proof (firstn_le_length i s) as Hf.
  assert (0 < length l) by (destruct l; [congruence | cbn; lia]). lia.
Qed.

(** The leftmost block, read off the text: the opening mark stands nowhere
    in front of it, and the closing mark nowhere in its contents. *)
Lemma leftmost_block_iff (text body : jsstring) :
  leftmost_block text = Some body <->
  exists pre post,
    text = pre ++ json_open ++ body ++ json_close ++ post
    /\ includes json_open pre = false /\ includes json_close body = false.
Proof.
  unfold leftmost_block. split.
  - destruct (indexOf json_open text) as [i|] eqn:Ei; [|discriminate]. cbv zeta.
    destruct (indexOf json_close (skipn (i + length json_open) text)) as [j|] eqn:Ej;
      [|discriminate].
    intro H. injection H as <-.
    exists (firstn i text), (skipn (j + length json_close) (skipn (i + length json_open) text)).
    split; [|split].
    + etransitivity; [exact (@indexOf_some _ _ _ Ei)|]. do 2 f_equal.
      exact (@indexOf_some _ _ _ Ej).
    + apply indexOf_before; [discriminate | exact Ei].
    + apply indexOf_before; [discriminate | exact Ej].
  - intros (pre & post & -> & Hpre & Hbody).
    change json_open with (utf16 "<!--JSON_DATA" ++ [58%N]) in *.
    change json_close with (utf16 "--" ++ [62%N]) in *.
    rewrite indexOf_first; [|vm_compute; intuition discriminate | exact Hpre].
    cbv zeta. rewrite app_assoc, skipn_app_length by (now rewrite !length_app).
    rewrite indexOf_first; [|vm_compute; intuition discriminate | exact Hbody].
    now rewrite firstn_app, firstn_all, Nat.sub_diag, app_nil_r.
Qed.

(** ** Step lines *)

(** Every line that matches the two step patterns gives a stage: the scan
    leaves no step line out. *)
Lemma scan_stages_complete (stageLines : list jsstring) (line : jsstring) (h m : result) :
  In line stageLines ->
  match_here re_step_head line = Some h -> exec re_step line = Some m ->
  exists next, In (fst (stage_of m next)) (scan_stages stageLines).
Proof.
  intros Hin Hh Hm. induction stageLines as [|line0 rest IH]; [destruct Hin|].
  cbn [scan_stages].
  destruct Hin as [-> | Hin].
  - rewrite Hh, Hm. destruct rest as [|next rest'].
    + exists None. now left.
    + exists (Some next).
      pose proof (stage_of_no_detail m (Some next)) as [Hskip _].
      destruct (stage_of m (Some next)) as [stage skip]. now left.
  - destruct (IH Hin) as (next & Hnext). exists next.
    destruct (match_here re_step_head line0); [|exact Hnext].
    destruct (exec re_step line0) as [m0|]; [|exact Hnext].
    destruct rest as [|next0 rest']; [destruct Hin|].
    pose proof (stage_of_no_detail m0 (Some next0)) as [Hskip _].
    destruct (stage_of m0 (Some next0)) as [stage skip]. cbn [snd] in Hskip. subst skip.
    now right.
Qed.

(** Every stage of the scan comes from a line that matched the two step
    patterns. *)
Lemma scan_stages_sound (stageLines : list jsstring) (st : Stage.t) :
  In st (scan_stages stageLines) ->
  exists line h m next,
    In line stageLines /\ match_here re_step_head line = Some h
    /\ exec re_step line = Some m /\ st = fst (stage_of m next).
Proof.
  induction stageLines as [|line rest IH]; cbn [scan_stages In]; [tauto|].
  assert (Hrest : In st (scan_stages rest) ->
                  exists line0 h m next,
                    (line = line0 \/ In line0 rest)
                    /\ match_here re_step_head line0 = Some h
                    /\ exec re_step line0 = Some m /\ st = fst (stage_of m next)).
  { intro H. destruct (IH H) as (l & h & m & nx & Hin & Hh & Hm & Hst).
    exists l, h, m, nx. auto. }
  destruct (match_here re_step_head line) as [h|] eqn:Eh; [|exact Hrest].
  destruct (exec re_step line) as [m|] eqn:Em; [|exact Hrest].
  destruct rest as [|next rest'].
  - cbn [In]. intros [<-|[]]. exists line, h, m, None. auto.
  - pose proof (stage_of_no_detail m (Some next)) as [Hskip _].
    destruct (stage_of m (Some next)) as [stage skip] eqn:Es. cbn [snd] in Hskip.
    subst skip. cbn [In]. intros [<-|H].
    + exists line, h, m, (Some next). rewrite Es. auto.
    + exact (Hrest H).
Qed.

Lemma split_none (sep s : jsstring) : indexOf sep s = None -> split sep s = [s].
Proof. intro H. unfold split. destruct s; cbn [length split_fuel]; now rewrite ?H. Qed.

(** A text without the label of the step list has no step line. *)
Lemma stage_lines_none (text : jsstring) :
  includes lbl_steps text = false -> stage_lines text = [].
Proof.
  unfold includes, stage_lines. destruct (indexOf lbl_steps text) eqn:E; [discriminate|].
  intros _. now rewrite (split_none _ _ E).
Qed.

(** What the scan makes of the header of a step line. *)
Lemma stage_of_reconstructed (m : result) (next : option jsstring) :
  let minutes := parseInt (group 1 (caps m)) in
  let seconds := parseInt (group 2 (caps m)) in
  let t := (60 * minutes + seconds)%Z in
  Stage.time (fst (stage_of m next)) = t
  /\ Stage.pourTime (fst (stage_of m next)) = Z.min 20 (Qceiling (inject_Z t * (1 # 4)))
  /\ Stage.pourTime (fst (stage_of m next)) = Z.min 20 ((t + 3) / 4).
Proof.
  cbv zeta. destruct (stage_of_time m next) as [Ht Hp]. rewrite Ht, Hp.
  replace (60 * parseInt (group 1 (caps m)))%Z with (parseInt (group 1 (caps m)) * 60)%Z by lia.
  split; [reflexivity|]. apply pourTime_of_quarter.
Qed.

(** * The claims *)

(** C1. The text written for a method does not parse back to its stage
    labels: the parser takes the pour time and pour type notes that the
    formatter writes in front of the label as part of the label.  For the
    example method of the source the name, the times and the water amounts
    come back, and none of the three labels does; they do come back once
    the stages carry no pour time and no pour type, so that the formatter
    writes no note. *)
Theorem method_round_trip_label :
  let m := sample_method in
  let m' := parseMethodText 0 (methodToReadableText m) in
  Method.name m' = Method.name m
  /\ map Stage.time (Params.stages (Method.params m'))
     = map Stage.time (Params.stages (Method.params m))
  /\ map Stage.water (Params.stages (Method.params m'))
     = map Stage.water (Params.stages (Method.params m))
  /\ map Stage.label (Params.stages (Method.params m))
     = [utf16 "螺旋焖蒸"; utf16 "快节奏中心注水"; utf16 "分层绕圈注水"]
  /\ map Stage.label (Params.stages (Method.params m'))
     = [utf16 "(注水15秒) [绕圈注水] 螺旋焖蒸";
        utf16 "(注水20秒) [中心注水] 快节奏中心注水";
        utf16 "(注水30秒) [绕圈注水] 分层绕圈注水"]
  /\ map Stage.label
       (Params.stages
          (Method.params (parseMethodText 0 (methodToReadableText (without_notes m)))))
     = map Stage.label (Params.stages (Method.params m)).
Proof. vm_compute. repeat split. Qed.

(** C2, as stated, fails for the text parser: a text that carries an
    [@METHOD_ID:method-...@] tag gets the id of the tag, whatever the
    clock. *)
Lemma parseMethodText_reuses_id :
  Method.id (parseMethodText 1700000000000 text_with_id) = utf16 "method-abc"
  /\ Method.id (parseMethodText 1700000000001 text_with_id) = utf16 "method-abc"
  /\ includes (utf16 "method-abc") text_with_id = true.
Proof. vm_compute. repeat split. Qed.

(** C2, amended. A method returned by [parseMethodFromJson] has the id
    built from the clock and the random text, whatever the document holds
    (an [id] field of the document is never read).  A method returned by
    [parseMethodText] has the id [method-<clock>] when the text holds no
    [@METHOD_ID:] tag; in all cases its id is either that one or the id that
    the tag pattern captures in the text; and when the first [@METHOD_ID:]
    of the text starts a tag [@METHOD_ID:method-<token>@], with a token of
    letters, digits and hyphens, its id is [method-<token>], the id of the
    tag.  Importing the same JSON at two different clock values gives two
    different ids. *)
Theorem import_id
        (JSON_parse : jsstring -> option Json.value)
        (ToString : Json.value -> option jsstring)
        (now : Z) (random36 : jsstring) :
  (forall jsonString m,
      parseMethodFromJson JSON_parse ToString now random36 jsonString = Some m ->
      JMethod.id m = dec now ++ utf16 "-" ++ firstn 9 (skipn 2 random36))
  /\ (forall text,
         includes tag_method_id text = false ->
         Method.id (parseMethodText now text) = utf16 "method-" ++ dec now)
  /\ (forall text,
         Method.id (parseMethodText now text) = utf16 "method-" ++ dec now
         \/ exists m, exec re_method_id text = Some m
                      /\ Method.id (parseMethodText now text) = group 1 (caps m))
  /\ (forall pre token post,
         includes tag_method_id pre = false ->
         token <> [] -> forallb is_id_char token = true ->
         Method.id
           (parseMethodText now
              (pre ++ tag_method_id ++ utf16 "method-" ++ token ++ utf16 "@" ++ post))
         = utf16 "method-" ++ token)
  /\ (forall now' random36' jsonString m m',
         (0 <= now)%Z -> (0 <= now')%Z -> now <> now' ->
         parseMethodFromJson JSON_parse ToString now random36 jsonString = Some m ->
         parseMethodFromJson JSON_parse ToString now' random36' jsonString = Some m' ->
         JMethod.id m <> JMethod.id m').
Proof.
  assert (Hjson : forall t r s m,
             parseMethodFromJson JSON_parse ToString t r s = Some m ->
             JMethod.id m = fresh_id t r).
  { unfold parseMethodFromJson. intros t r s m H.
    destruct (JSON_parse s) as [d|]; [|discriminate H]. cbn [bind] in H.
    now apply method_of_parsed_some in H as (Hid & _). }
  split; [|split; [|split; [|split]]].
  - intros s m H. exact (Hjson _ _ _ _ H).
  - intros text H. unfold parseMethodText. cbn [Method.id].
    unfold re_method_id. now rewrite capture1_lit_absent.
  - intros text. unfold parseMethodText. cbn [Method.id]. unfold capture1.
    destruct (exec re_method_id text) as [m|]; [|now left].
    destruct (nonempty (group 1 (caps m))); [|now left].
    right. exists m. split; reflexivity.
  - intros pre token post Hpre Hne Htok. unfold parseMethodText. cbn [Method.id].
    now rewrite re_method_id_found.
  - intros now' random36' s m m' H0 H0' Hneq Hm Hm' Heq.
    rewrite (Hjson _ _ _ _ Hm), (Hjson _ _ _ _ Hm') in Heq.
    exact (Hneq (@fresh_id_clock _ _ _ _ H0 H0' Heq)).
Qed.

Lemma import_id_witness :
  holds (parseMethodFromJson Sample.json_parse Sample.to_string 1700000000000
           sample_random36 doc_enums)
    (fun m => JMethod.id m = utf16 "1700000000000-4fzyo82mv")
  /\ Method.id (parseMethodText 1700000000000 (methodToReadableText sample_method))
     = utf16 "method-1700000000000".
Proof.
  split.
  - destruct (parseMethodFromJson Sample.json_parse Sample.to_string 1700000000000
                sample_random36 doc_enums) as [m|] eqn:E; [|vm_compute in E; discriminate E].
    exact (proj1 (import_id Sample.json_parse Sample.to_string 1700000000000
                    sample_random36) doc_enums m E).
  - apply (proj1 (proj2 (import_id Sample.json_parse Sample.to_string 1700000000000
                           sample_random36))).
    vm_compute. reflexivity.
Defined.

(** C3. On a step header followed by an indented line, the line is not
    taken as the detail of the step: the stage comes back with an empty
    [detail], here for the step [1. [0分30秒] 焖蒸 - 45g] followed by
    [   轻轻搅拌], and for the text that the formatter writes for the example
    method of the source, whose three stages have a detail each. *)
Theorem parseMethodText_drops_detail :
  map Stage.detail (Params.stages (Method.params (parseMethodText 0 text_indented_detail)))
  = [[]]
  /\ stage_lines text_indented_detail
     = [utf16 "1. [0分30秒] 焖蒸 - 45g"; utf16 "   轻轻搅拌"]
  /\ map Stage.detail (Params.stages (Method.params sample_method))
     = [utf16 "加大注水搅拌力度，充分激活咖啡粉层";
        utf16 "高水位快速注入加速可溶性物质释放";
        utf16 "分三次间隔注水控制萃取节奏"]
  /\ map Stage.detail
       (Params.stages (Method.params (parseMethodText 0 (methodToReadableText sample_method))))
     = [[]; []; []].
Proof. vm_compute. repeat split. Qed.

(** C4, as stated, fails on a block without contents: the text
    [<!--JSON_DATA:-->【咖啡豆】Kenya AA] is not JSON and holds a block, whose
    contents (the empty text) do not parse; the dispatcher does not return
    [null] but goes on to the section header and returns the bean. *)
Lemma extractJsonFromText_empty_block :
  Sample.json_parse text_empty_block = None
  /\ (exists m, exec re_json_block text_empty_block = Some m
                /\ whole m = json_open ++ json_close /\ group 1 (caps m) = [])
  /\ Sample.json_parse [] = None
  /\ extractJsonFromText Sample.json_parse 0 text_empty_block
     = BeanData (parseCoffeeBeanText text_empty_block)
  /\ Bean.name (parseCoffeeBeanText text_empty_block) = utf16 "Kenya AA".
Proof.
  split; [reflexivity|]. split.
  - eexists. split; [vm_compute; reflexivity|]. split; reflexivity.
  - repeat split.
Qed.

(** C4, amended. [extractJsonFromText] goes through four tiers in order:
    a text that parses as JSON gives the parsed value as it is; else, when
    the leftmost [<!--JSON_DATA:...-->] block of the text (from the first
    opening mark to the nearest closing mark behind it) has contents that
    are not empty, the result is the parsed contents of that block, and
    [null] when they do not parse; else, so when the text has no block or
    the contents of its leftmost block are empty, the first of the marks
    [@DATA_TYPE:COFFEE_BEAN@], [@DATA_TYPE:BREWING_METHOD@],
    [@DATA_TYPE:BREWING_NOTE@], [【咖啡豆】], [【冲煮方案】], [【冲煮记录】] that
    the text holds gives the result of its text parser; and when the text
    holds none of them the result is [null]. *)
Theorem extractJsonFromText_tiers
        (JSON_parse : jsstring -> option Json.value) (now : Z) (text : jsstring) :
  let result := extractJsonFromText JSON_parse now text in
  let no_contents := leftmost_block text = None \/ leftmost_block text = Some [] in
  (forall data, JSON_parse text = Some data -> result = JsonData data)
  /\ (forall body,
         JSON_parse text = None -> leftmost_block text = Some body -> body <> [] ->
         result = match JSON_parse body with
                  | Some data => JsonData data
                  | None => null
                  end)
  /\ (forall body,
         leftmost_block text = Some body <->
         exists pre post,
           text = pre ++ json_open ++ body ++ json_close ++ post
           /\ includes json_open pre = false /\ includes json_close body = false)
  /\ (forall before mark r after,
         JSON_parse text = None -> no_contents ->
         tier_table now text = before ++ (mark, r) :: after ->
         Forall (fun e => includes (fst e) text = false) before ->
         includes mark text = true ->
         result = r)
  /\ (JSON_parse text = None -> no_contents ->
      Forall (fun e => includes (fst e) text = false) (tier_table now text) ->
      result = null).
Proof.
  assert (Hroute : JSON_parse text = None ->
                   leftmost_block text = None \/ leftmost_block text = Some [] ->
                   extractJsonFromText JSON_parse now text
                   = first_route text (tier_table now text)).
  { intros H1 H2. unfold extractJsonFromText. rewrite H1, capture1_json_block.
    destruct H2 as [-> | ->]; reflexivity. }
  cbv zeta. split; [|split; [|split; [|split]]].
  - intros data H. unfold extractJsonFromText. now rewrite H.
  - intros body H1 H2 Hne. unfold extractJsonFromText.
    rewrite H1, capture1_json_block, H2. destruct body; [congruence | reflexivity].
  - intro body. apply leftmost_block_iff.
  - intros before mark r after H1 H2 Ht Hb Hm.
    rewrite (Hroute H1 H2), Ht. now apply first_route_at.
  - intros H1 H2 Hall. rewrite (Hroute H1 H2). now apply first_route_none.
Qed.

Lemma extractJsonFromText_tiers_witness :
  extractJsonFromText Sample.json_parse 0 (Sample.json "{'a':1}")
  = JsonData (Json.Obj [(utf16 "a", Json.Num 1)])
  /\ extractJsonFromText Sample.json_parse 0 text_block_gt
     = JsonData (Json.Obj [(utf16 "a", Json.Str (utf16 "x>y"))])
  /\ extractJsonFromText Sample.json_parse 0 text_unclosed_block
     = BeanData (parseCoffeeBeanText text_unclosed_block)
  /\ extractJsonFromText Sample.json_parse 0 text_empty_block
     = BeanData (parseCoffeeBeanText text_empty_block)
  /\ extractJsonFromText Sample.json_parse 0 (utf16 "not json and no markers") = null
  /\ extractJsonFromText Sample.json_parse 0 (methodToReadableText sample_method)
     = MethodData (parseMethodText 0 (methodToReadableText sample_method)).
Proof.
  split; [|split; [|split; [|split; [|split]]]].
  - apply (proj1 (extractJsonFromText_tiers Sample.json_parse 0 (Sample.json "{'a':1}"))).
    vm_compute. reflexivity.
  - apply (proj1 (proj2 (extractJsonFromText_tiers Sample.json_parse 0 text_block_gt))
             (Sample.json "{'a':'x>y'}")).
    + vm_compute. reflexivity.
    + vm_compute. reflexivity.
    + discriminate.
  - apply (proj1 (proj2 (proj2 (proj2
             (extractJsonFromText_tiers Sample.json_parse 0 text_unclosed_block))))
             [(tag_bean, BeanData (parseCoffeeBeanText text_unclosed_block));
              (tag_method, MethodData (parseMethodText 0 text_unclosed_block));
              (tag_note, NoteData (parseBrewingNoteText 0 text_unclosed_block))]
             head_bean _
             [(head_method, MethodData (parseMethodText 0 text_unclosed_block));
              (head_note, NoteData (parseBrewingNoteText 0 text_unclosed_block))]).
    + vm_compute. reflexivity.
    + left. vm_compute. reflexivity.
    + reflexivity.
    + repeat constructor.
    + vm_compute. reflexivity.
  - apply (proj1 (proj2 (proj2 (proj2
             (extractJsonFromText_tiers Sample.json_parse 0 text_empty_block))))
             [(tag_bean, BeanData (parseCoffeeBeanText text_empty_block));
              (tag_method, MethodData (parseMethodText 0 text_empty_block));
              (tag_note, NoteData (parseBrewingNoteText 0 text_empty_block))]
             head_bean _
             [(head_method, MethodData (parseMethodText 0 text_empty_block));
              (head_note, NoteData (parseBrewingNoteText 0 text_empty_block))]).
    + vm_compute. reflexivity.
    + right. vm_compute. reflexivity.
    + reflexivity.
    + repeat constructor.
    + vm_compute. reflexivity.
  - apply (proj2 (proj2 (proj2 (proj2
             (extractJsonFromText_tiers Sample.json_parse 0
                (utf16 "not json and no markers")))))).
    + vm_compute. reflexivity.
    + left. vm_compute. reflexivity.
    + vm_compute. repeat constructor.
  - apply (proj1 (proj2 (proj2 (proj2
             (extractJsonFromText_tiers Sample.json_parse 0
                (methodToReadableText sample_method)))))
             [(tag_bean, BeanData (parseCoffeeBeanText (methodToReadableText sample_method)))]
             tag_method _
             [(tag_note, NoteData (parseBrewingNoteText 0 (methodToReadableText sample_method)));
              (head_bean, BeanData (parseCoffeeBeanText (methodToReadableText sample_method)));
              (head_method, MethodData (parseMethodText 0 (methodToReadableText sample_method)));
              (head_note, NoteData (parseBrewingNoteText 0 (methodToReadableText sample_method)))]).
    + vm_compute. reflexivity.
    + left. vm_compute. reflexivity.
    + reflexivity.
    + constructor; [vm_compute; reflexivity | constructor].
    + vm_compute. reflexivity.
Defined.

(** C5, as stated, fails: the document
    [{"method":"X","params":{"stages":[null]}}] is valid JSON, has a
    [method] field and a stage list that is not empty, and the import
    returns [null] all the same (reading [pourType] of the [null] entry
    throws inside the [try] block). *)
Lemma parseMethodFromJson_null_stage_entry :
  Sample.json_parse doc_null_stage
  = Some (Json.Obj [(prop "params", Json.Obj [(prop "stages", Json.Arr [Json.Null])]);
                    (prop "method", Json.Str (utf16 "X"))])
  /\ holds (Sample.json_parse doc_null_stage)
       (fun d => Json.get_opt d (prop "method") = Json.Str (utf16 "X")
                 /\ stage_entries d = Json.Arr [Json.Null])
  /\ parseMethodFromJson Sample.json_parse Sample.to_string 0 sample_random36 doc_null_stage
     = None.
Proof. vm_compute. repeat split. Qed.

(** A second document outside the three cases: a [method] field is there,
    holding the empty string, and the stage list has one entry. *)
Example parseMethodFromJson_empty_method :
  holds (Sample.json_parse doc_empty_method)
    (fun d => Json.get d (prop "method") = Some (Json.Str [])
              /\ stage_entries d = Json.Arr [Json.Obj []])
  /\ parseMethodFromJson Sample.json_parse Sample.to_string 0 sample_random36 doc_empty_method
     = None.
Proof. vm_compute. repeat split. Qed.

(** C5, amended. [parseMethodFromJson] never throws (it is a total function
    into an option) and returns [null] exactly when the text is not valid
    JSON, or the document is [null], or neither [method] nor [equipment] is
    truthy, or the name has to be built from an [equipment] that has no
    string conversion, or [params.stages] is not an array, is empty, or has
    a [null] entry.  Otherwise it returns a method in which each of
    [coffee], [water], [ratio], [grindSize], [temp] is the value of the
    document when that is truthy and else its fixed default, so the default
    whenever the field is absent. *)
Theorem parseMethodFromJson_null_iff
        (JSON_parse : jsstring -> option Json.value)
        (ToString : Json.value -> option jsstring)
        (now : Z) (random36 jsonString : jsstring) :
  (parseMethodFromJson JSON_parse ToString now random36 jsonString = None <->
   JSON_parse jsonString = None
   \/ exists d,
       JSON_parse jsonString = Some d
       /\ ((d = Json.Null \/ d = Json.Undefined)
           \/ (Json.truthy (Json.get_opt d (prop "method")) = false
               /\ Json.truthy (Json.get_opt d (prop "equipment")) = false)
           \/ (Json.truthy (Json.get_opt d (prop "method")) = false
               /\ ToString (Json.get_opt d (prop "equipment")) = None)
           \/ (forall items, stage_entries d <> Json.Arr items)
           \/ stage_entries d = Json.Arr []
           \/ (exists items, stage_entries d = Json.Arr items
                             /\ (In Json.Null items \/ In Json.Undefined items))))
  /\ (forall m,
        parseMethodFromJson JSON_parse ToString now random36 jsonString = Some m ->
        exists d,
          JSON_parse jsonString = Some d /\
          let params := Json.get_opt d (prop "params") in
          let p := JMethod.params m in
          defaulted params "coffee" "15g" (JParams.coffee p)
          /\ defaulted params "water" "225g" (JParams.water p)
          /\ defaulted params "ratio" "1:15" (JParams.ratio p)
          /\ defaulted params "grindSize" "中细" (JParams.grindSize p)
          /\ defaulted params "temp" "92°C" (JParams.temp p)).
Proof.
  unfold parseMethodFromJson. split.
  - destruct (JSON_parse jsonString) as [d|] eqn:Ed; cbn [bind].
    + rewrite method_of_parsed_none. split.
      * intro H. right. exists d. split; [reflexivity | exact H].
      * intros [H | (d' & Hd & H)]; [discriminate H|]. injection Hd as <-. exact H.
    + split; auto.
  - intros m H. destruct (JSON_parse jsonString) as [d|] eqn:Ed; [|discriminate H].
    cbn [bind] in H. exists d. split; [reflexivity|].
    apply method_of_parsed_some in H as (_ & Hc & Hw & Hr & Hg & Ht & _).
    cbv zeta. rewrite Hc, Hw, Hr, Hg, Ht. unfold defaulted, param_or.
    repeat split; intros ->; reflexivity.
Qed.

Lemma parseMethodFromJson_null_iff_witness :
  parseMethodFromJson Sample.json_parse Sample.to_string 0 sample_random36 doc_no_stages = None
  /\ parseMethodFromJson Sample.json_parse Sample.to_string 0 sample_random36
       (utf16 "not json") = None
  /\ holds (parseMethodFromJson Sample.json_parse Sample.to_string 0 sample_random36 doc_enums)
       (fun m => JParams.coffee (JMethod.params m) = Json.Str (utf16 "15g")
                 /\ JParams.temp (JMethod.params m) = Json.Str (utf16 "92°C")).
Proof.
  split; [|split].
  - apply (proj1 (parseMethodFromJson_null_iff Sample.json_parse Sample.to_string 0
                    sample_random36 doc_no_stages)).
    right. eexists. split; [vm_compute; reflexivity|].
    do 3 right. left. intros items. vm_compute. discriminate.
  - apply (proj1 (parseMethodFromJson_null_iff Sample.json_parse Sample.to_string 0
                    sample_random36 (utf16 "not json"))).
    left. vm_compute. reflexivity.
  - destruct (parseMethodFromJson Sample.json_parse Sample.to_string 0 sample_random36
                doc_enums) as [m|] eqn:E; [|vm_compute in E; discriminate E].
    destruct (proj2 (parseMethodFromJson_null_iff Sample.json_parse Sample.to_string 0
                       sample_random36 doc_enums) m E)
      as (d & Hd & (_ & Hc) & _ & _ & _ & (_ & Ht)).
    vm_compute in Hd. injection Hd as <-. split.
    + apply Hc. vm_compute. reflexivity.
    + apply Ht. vm_compute. reflexivity.
Defined.

(** C6. Every stage of a method returned by [parseMethodFromJson] has its
    [pourType] among center, circle, ice, other and its [valveStatus] among
    open, closed and the empty string; stage by stage, a [pourType] of the
    document that is not one of the four ("spiral" as any other value, or
    none) has become "circle", and a [valveStatus] that is not one of the
    two has become the empty string. *)
Theorem parseMethodFromJson_enums
        (JSON_parse : jsstring -> option Json.value)
        (ToString : Json.value -> option jsstring)
        (now : Z) (random36 jsonString : jsstring) (m : JMethod.t) :
  parseMethodFromJson JSON_parse ToString now random36 jsonString = Some m ->
  Forall (fun st =>
            In (JStage.pourType st)
               [Json.Str (utf16 "center"); Json.Str (utf16 "circle");
                Json.Str (utf16 "ice"); Json.Str (utf16 "other")]
            /\ In (JStage.valveStatus st)
                  [Json.Str (utf16 "open"); Json.Str (utf16 "closed"); Json.Str []])
         (JParams.stages (JMethod.params m))
  /\ exists parsedData items,
      JSON_parse jsonString = Some parsedData
      /\ stage_entries parsedData = Json.Arr items
      /\ Forall2 (fun entry st =>
                    let pt := Json.get_opt entry (prop "pourType") in
                    let vs := Json.get_opt entry (prop "valveStatus") in
                    JStage.pourType st
                    = (if Json.one_of pour_types pt then pt else Json.Str (utf16 "circle"))
                    /\ JStage.valveStatus st
                       = (if Json.one_of valve_states vs then vs else Json.Str []))
           items (JParams.stages (JMethod.params m)).
Proof.
  unfold parseMethodFromJson. intro H.
  destruct (JSON_parse jsonString) as [d|] eqn:Ed; [|discriminate H]. cbn [bind] in H.
  apply method_of_parsed_some in H as (_ & _ & _ & _ & _ & _ & items & Hitems & Hall).
  split.
  - apply Forall2_Forall_r with (1 := Hall). intros entry st Hst.
    apply normalize_stage_enums in Hst as (_ & _ & Hp & Hv). split; [exact Hp | exact Hv].
  - exists d, items. split; [reflexivity|]. split; [exact Hitems|].
    revert Hall. apply Forall2_impl. intros entry st Hst.
    apply normalize_stage_enums in Hst as (Hp & Hv & _). split; [exact Hp | exact Hv].
Qed.

Lemma parseMethodFromJson_enums_witness :
  holds (parseMethodFromJson Sample.json_parse Sample.to_string 0 sample_random36 doc_enums)
    (fun m =>
       map JStage.pourType (JParams.stages (JMethod.params m))
       = [Json.Str (utf16 "circle"); Json.Str (utf16 "ice")]
       /\ Forall (fun st =>
                    In (JStage.pourType st)
                       [Json.Str (utf16 "center"); Json.Str (utf16 "circle");
                        Json.Str (utf16 "ice"); Json.Str (utf16 "other")]
                    /\ In (JStage.valveStatus st)
                          [Json.Str (utf16 "open"); Json.Str (utf16 "closed"); Json.Str []])
            (JParams.stages (JMethod.params m))).
Proof.
  destruct (parseMethodFromJson Sample.json_parse Sample.to_string 0 sample_random36 doc_enums)
    as [m|] eqn:E.
  - split.
    + vm_compute in E. injection E as <-. reflexivity.
    + exact (proj1 (parseMethodFromJson_enums _ _ _ _ _ E)).
  - vm_compute in E. discriminate E.
Defined.

(** C7, as stated, fails for a method whose name holds the label of the
    parameter line: the parser reads the amount from the header line, the
    first place where the label stands.  With the name [咖啡粉量: 100g] it
    returns [100g], and with the name [咖啡粉量: 未设置 ] (a blank at the
    end) it stores the placeholder itself. *)
Lemma method_round_trip_coffee_from_name :
  Params.coffee (Method.params (method_named (utf16 "咖啡粉量: 100g"))) = []
  /\ Params.coffee
       (Method.params
          (parseMethodText 0 (methodToReadableText (method_named (utf16 "咖啡粉量: 100g")))))
     = utf16 "100g"
  /\ Params.coffee
       (Method.params
          (parseMethodText 0 (methodToReadableText (method_named (utf16 "咖啡粉量: 未设置 ")))))
     = utf16 "未设置".
Proof. vm_compute. repeat split. Qed.

(** C7, amended. A method whose [params.coffee] is the empty string and
    whose name does not hold the label [咖啡粉量:] is formatted with the
    parameter line [咖啡粉量: 未设置], and parsing the formatted text back
    gives the empty string for [coffee]. *)
Theorem method_round_trip_coffee_unset (now : Z) (m : Method.t) :
  Params.coffee (Method.params m) = [] ->
  includes lbl_coffee (Method.name m) = false ->
  (exists pre post,
      methodToReadableText m = pre ++ LF ++ lbl_coffee ++ SP ++ unset ++ LF ++ post)
  /\ Params.coffee (Method.params (parseMethodText now (methodToReadableText m))) = [].
Proof.
  intros Hc Hname.
  assert (Htext : methodToReadableText m
                  = head_method ++ Method.name m ++ LF ++ LF ++ lbl_coffee ++ SP ++ unset
                      ++ LF
                      ++ (lbl_water ++ SP ++ or_else (Params.water (Method.params m)) unset ++ LF
                          ++ lbl_ratio ++ SP ++ or_else (Params.ratio (Method.params m)) unset ++ LF
                          ++ lbl_grind ++ SP ++ or_else (Params.grindSize (Method.params m)) unset ++ LF
                          ++ lbl_temp ++ SP ++ or_else (Params.temp (Method.params m)) unset ++ LF)
                      ++ match Params.stages (Method.params m) with
                         | [] => []
                         | _ :: _ => LF ++ lbl_steps ++ LF ++ LF
                                     ++ stagesText 0 (Params.stages (Method.params m))
                         end
                      ++ share_footer ++ LF ++ LF ++ tag_method).
  { unfold methodToReadableText, paramLines. rewrite Hc. cbv zeta.
    change (or_else [] unset) with unset.
    repeat rewrite <- app_assoc. reflexivity. }
  split.
  - exists (head_method ++ Method.name m ++ LF). eexists.
    rewrite Htext. repeat rewrite <- app_assoc. reflexivity.
  - unfold parseMethodText. cbn [Method.params Params.coffee]. unfold param_of.
    rewrite Htext.
    rewrite coffee_line_first; [reflexivity | exact Hname | reflexivity | reflexivity].
Qed.

Lemma method_round_trip_coffee_unset_witness :
  Params.coffee
    (Method.params
       (parseMethodText 0 (methodToReadableText (method_named (utf16 "V60 一刀流"))))) = [].
Proof.
  apply (method_round_trip_coffee_unset 0 (method_named (utf16 "V60 一刀流"))).
  - reflexivity.
  - vm_compute. reflexivity.
Defined.

(** C8. Every line of the step list that matches the two step patterns
    gives a stage of the returned method, and every stage of the returned
    method comes from such a line.  With [minutes] and [seconds] the two
    numbers of the header of the line and [t = 60 * minutes + seconds], the
    [pourTime] of the stage is [min(20, ceil(t * 0.25))] (which is
    [min(20, (t + 3) / 4)] in whole numbers), and its [time] is [t] as long
    as [t] stays below 2^53, where the numbers of the source are exact. *)
Theorem parseMethodText_pourTime (now : Z) (text : jsstring) :
  let stages := Params.stages (Method.params (parseMethodText now text)) in
  let reconstructed (m : result) (st : Stage.t) :=
    let minutes := parseInt (group 1 (caps m)) in
    let seconds := parseInt (group 2 (caps m)) in
    let t := (60 * minutes + seconds)%Z in
    ((t < 2 ^ 53)%Z -> Stage.time st = t)
    /\ Stage.pourTime st = Z.min 20 (Qceiling (inject_Z t * (1 # 4)))
    /\ Stage.pourTime st = Z.min 20 ((t + 3) / 4) in
  (forall line h m,
      In line (stage_lines text) -> match_here re_step_head line = Some h ->
      exec re_step line = Some m ->
      exists st, In st stages /\ reconstructed m st)
  /\ (forall st,
         In st stages ->
         exists line h m,
           In line (stage_lines text) /\ match_here re_step_head line = Some h
           /\ exec re_step line = Some m /\ reconstructed m st).
Proof.
  cbv zeta. unfold parseMethodText. cbn [Method.params Params.stages]. split.
  - intros line h m Hin Hh Hm.
    destruct (includes lbl_steps text) eqn:Ei.
    + destruct (scan_stages_complete _ _ Hin Hh Hm) as (next & Hst).
      exists (fst (stage_of m next)). split; [exact Hst|].
      destruct (stage_of_reconstructed m next) as (Ht & Hp & Hq). auto.
    + rewrite (stage_lines_none _ Ei) in Hin. destruct Hin.
  - intros st H. destruct (includes lbl_steps text); [|destruct H].
    apply scan_stages_sound in H as (line & h & m & next & Hin & Hh & Hm & ->).
    exists line, h, m. repeat (split; [assumption|]).
    destruct (stage_of_reconstructed m next) as (Ht & Hp & Hq). auto.
Qed.

(** The third step of the text of [sample_method], [3. [2分0秒] ...], gives
    a stage of the parsed method with pour time [min(20, ceil(120 * 0.25))],
    which is 20. *)
Lemma parseMethodText_pourTime_witness :
  exists st,
    In st (Params.stages
             (Method.params (parseMethodText 0 (methodToReadableText sample_method))))
    /\ Stage.time st = 120%Z /\ Stage.pourTime st = 20%Z.
Proof.
  destruct (exec re_step sample_step_line) as [m|] eqn:Em;
    [|vm_compute in Em; discriminate Em].
  destruct (match_here re_step_head sample_step_line) as [h|] eqn:Eh;
    [|vm_compute in Eh; discriminate Eh].
  destruct (proj1 (parseMethodText_pourTime 0 (methodToReadableText sample_method))
              sample_step_line h m) as (st & Hin & Ht & Hp & _).
  - vm_compute. do 4 right. left. reflexivity.
  - exact Eh.
  - exact Em.
  - exists st. split; [exact Hin|].
    vm_compute in Em. injection Em as <-. split.
    + rewrite Ht; [reflexivity | vm_compute; reflexivity].
    + rewrite Hp. vm_compute. reflexivity.
Defined.

(** C9, as stated, fails: a component whose detail ends in a parenthesised
    percentage is rendered as a line of the shape that the parser accepts.
    The component of origin [Kenya (50%)] and percentage 30 is written
    [1. 30% Kenya (50%)] and comes back as the component named [30% Kenya]
    with percentage 50. *)
Lemma bean_round_trip_component_found :
  Bean.blendComponents
    (parseCoffeeBeanText (beanToReadableText (bean_with_origin (utf16 "Kenya (50%)"))))
  = Some [Blend.mk (utf16 "30% Kenya") 50 None None None].
Proof. vm_compute. reflexivity. Qed.

(** C9, amended. For every coffee bean with a non-empty [blendComponents]
    list, [parseCoffeeBeanText (beanToReadableText bean)] returns
    [blendComponents] equal to the empty list whenever the blend section
    of the formatted text, the part that the parser reads the components
    from, holds no parenthesised percentage [(<digits>%)]; and the section
    holds none as soon as no text field that the formatter prints holds
    one.  Other parentheses in the fields change nothing. *)
Theorem bean_round_trip_components_lost (bean : Bean.t) (c : Blend.t) (cs : list Blend.t) :
  Bean.blendComponents bean = Some (c :: cs) ->
  let text := beanToReadableText bean in
  (bean_no_percent bean = true -> no_percent (blend_section text) = true)
  /\ (no_percent (blend_section text) = true ->
      Bean.blendComponents (parseCoffeeBeanText text) = Some []).
Proof.
  intros Hb text. split.
  - intro Hfree. unfold blend_section.
    do 2 apply no_percent_piece. now apply beanToReadableText_no_percent.
  - intro Hn. unfold parseCoffeeBeanText. cbn [Bean.blendComponents].
    assert (Hinc : includes lbl_blend text = true).
    { unfold text, beanToReadableText. rewrite Hb.
      do 19 apply includes_app_r. apply includes_app_l.
      apply (includes_app lbl_blend LF). }
    rewrite Hinc. rewrite match_all_none; [reflexivity|].
    now apply re_blend_needs_percent.
Qed.

Lemma bean_round_trip_components_lost_witness :
  Bean.blendComponents (parseCoffeeBeanText (beanToReadableText bean_with_parentheses))
  = Some []
  /\ Bean.blendComponents
       (parseCoffeeBeanText (beanToReadableText (bean_named (utf16 "Blend (50%)"))))
     = Some [].
Proof.
  split.
  - destruct (@bean_round_trip_components_lost bean_with_parentheses
                (Blend.mk (utf16 "Kenya") 30 (Some (utf16 "Kenya (AA)")) None None) []
                eq_refl) as [Hfields Hsection].
    apply Hsection. apply Hfields. vm_compute. reflexivity.
  - apply (@bean_round_trip_components_lost (bean_named (utf16 "Blend (50%)"))
             (Blend.mk (utf16 "Kenya") 30 (Some (utf16 "Kenya")) None None) [] eq_refl).
    vm_compute. reflexivity.
Defined.

(** C10, as stated, fails: a blank behind the placeholder makes the
    capture differ from [未知], and the trimmed capture, [未知] itself, is
    stored. *)
Lemma parseCoffeeBeanText_keeps_unknown :
  Bean.roastLevel (parseCoffeeBeanText (lbl_roast ++ SP ++ unknown ++ SP ++ LF))
  = Some unknown.
Proof. vm_compute. reflexivity. Qed.

(** C10, amended. [parseCoffeeBeanText] returns the roast level
    [浅度烘焙] when the text holds no [烘焙度:] label, when the value
    captured behind the label is exactly [未知], and so when the first
    label of the text starts the line [烘焙度: 未知].  It returns [未知] only
    for a captured value that is not [未知] itself and trims to it. *)
Theorem parseCoffeeBeanText_roastLevel (text : jsstring) :
  (includes lbl_roast text = false ->
   Bean.roastLevel (parseCoffeeBeanText text) = Some light_roast)
  /\ (capture1 (re_line lbl_roast) text = Some unknown ->
      Bean.roastLevel (parseCoffeeBeanText text) = Some light_roast)
  /\ (forall pre post,
         includes lbl_roast pre = false ->
         text = pre ++ lbl_roast ++ SP ++ unknown ++ LF ++ post ->
         Bean.roastLevel (parseCoffeeBeanText text) = Some light_roast)
  /\ (Bean.roastLevel (parseCoffeeBeanText text) = Some unknown ->
      exists g, capture1 (re_line lbl_roast) text = Some g
                /\ g <> unknown /\ trim g = unknown).
Proof.
  assert (Hexact : capture1 (re_line lbl_roast) text = Some unknown ->
                   Bean.roastLevel (parseCoffeeBeanText text) = Some light_roast).
  { intro H. unfold parseCoffeeBeanText. cbn [Bean.roastLevel]. rewrite H. reflexivity. }
  split; [|split; [exact Hexact|split]].
  - intro H. unfold parseCoffeeBeanText. cbn [Bean.roastLevel].
    unfold re_line. now rewrite capture1_lit_absent.
  - intros pre post Hpre ->. apply Hexact. unfold lbl_roast in *.
    apply capture1_labelled; try reflexivity; try assumption.
    simpl. intros [H|[H|[H|[]]]]; discriminate H.
  - unfold parseCoffeeBeanText. cbn [Bean.roastLevel].
    destruct (capture1 (re_line lbl_roast) text) as [g|]; [|discriminate].
    destruct (eqb g unknown) eqn:E; [discriminate|].
    intro H. injection H as H. exists g. split; [reflexivity|]. split; [|exact H].
    intros ->. now rewrite eqb_refl in E.
Qed.

Lemma parseCoffeeBeanText_roastLevel_witness :
  Bean.roastLevel (parseCoffeeBeanText (utf16 "no roast line here")) = Some light_roast
  /\ Bean.roastLevel (parseCoffeeBeanText (beanToReadableText sample_bean)) = Some light_roast.
Proof.
  split.
  - apply (proj1 (parseCoffeeBeanText_roastLevel (utf16 "no roast line here"))).
    vm_compute. reflexivity.
  - apply (proj1 (proj2 (parseCoffeeBeanText_roastLevel (beanToReadableText sample_bean)))).
    vm_compute. reflexivity.
Defined.
